(** * Queryforge: the PDF ingestion pipeline of [ingest_pdf.py]

    A shallow embedding of [extract_text], [chunk_text], [embed_and_store]
    and [main], and the properties of the sliding-window chunker, the
    batched upsert and the command-line entry point.  The later parts add
    the dependency bootstrap [_ensure], the SQLite tools and the dashboard
    tools of [server.py], and [rand_email] of [data/seed.py].

    Modelling conventions.
    - A Python [int] is a [Z] (unbounded).
    - A Python [str] is a [string]; a character stands for a code point
      below 256, and [isspace] is [str.isspace] on that range.
    - A Python [dict] with a fixed set of keys is a record.
    - A [while] loop takes a bound on its number of iterations and says
      whether it left the loop within that bound; what it appended before
      the bound was reached is kept.
    - The PDF reader, the embedding model and the vector store are
      libraries outside the repository: the reader and the model are
      parameters, the store follows the upsert contract of the
      specification.
    - [main] is modelled from the point where [parser.parse_args()] has
      returned: a command line that argparse refuses (exit status 2) or
      answers itself ([--help], exit status 0) never reaches the code
      below it.  The calls of [print] are taken to succeed and what they
      write is not modelled.  The properties of [main] are therefore
      about runs with a parsed command line and a standard output that
      takes the progress messages, and none of them is about all the
      ways in which the process can end.
    - Paths are [pathlib] paths of a POSIX system.
    - For [server.py], sqlite3, pip and the Streamlit processes are
      outside the repository as well: a statement's result, pip's answer
      and the exit of a process are parameters or commands from outside;
      the tools are functions from the server's state to an answer and
      the next state, with the database calls they make listed in order.
      The fixed messages of the tools are kept byte for byte. *)

From Stdlib Require Import ZArith Lia Ascii String.
From stdpp Require Import base list strings pretty gmap sorting.

Local Open Scope Z_scope.

(** * Part I: the program *)

(** ** Python built-ins used by the pipeline *)

Module Py.

(** [len(l)] *)
Definition len {A : Type} (l : list A) : Z := Z.of_nat (length l).

(** [str.isspace] for one character (code points below 256): the ASCII
    controls 9..13 and 28..31, the space, NEL (133) and NBSP (160). *)
Definition isspace (c : ascii) : bool :=
  let n := N_of_ascii c in
  ((9 <=? n)%N && (n <=? 13)%N) || ((28 <=? n)%N && (n <=? 32)%N)
  || (n =? 133)%N || (n =? 160)%N.

(** First character test used by [split]: does the rest of the string
    continue the current word? *)
Definition continues_word (s : string) : bool :=
  match s with
  | EmptyString => false
  | String c _ => negb (isspace c)
  end.

(** Put a character in front of the first word of a word list. *)
Definition push_char (c : ascii) (ws : list string) : list string :=
  match ws with
  | [] => [String c EmptyString]
  | w :: ws' => String c w :: ws'
  end.

(** [s.split()]: the maximal runs of non-whitespace characters, in order;
    no empty word is produced. *)
Fixpoint split (s : string) : list string :=
  match s with
  | EmptyString => []
  | String c s' =>
      if isspace c then split s'
      else if continues_word s' then push_char c (split s')
      else String c EmptyString :: split s'
  end.

(** [sep.join(ws)] *)
Fixpoint join (sep : string) (ws : list string) : string :=
  match ws with
  | [] => EmptyString
  | [w] => w
  | w :: ws' => w +:+ sep +:+ join sep ws'
  end.

(** A slice bound as Python normalises it: a negative bound counts from
    the end, and both are clamped to [0, len]. *)
Definition slice_bound (n i : Z) : Z :=
  if i <? 0 then Z.max (i + n) 0 else Z.min i n.

(** [l[i:j]] *)
Definition slice {A : Type} (l : list A) (i j : Z) : list A :=
  let a := slice_bound (len l) i in
  let b := slice_bound (len l) j in
  take (Z.to_nat (b - a)) (drop (Z.to_nat a) l).

(** [s.strip()] and [re.sub(r"\s+", " ", s)] *)
Fixpoint lstrip (s : string) : string :=
  match s with
  | EmptyString => EmptyString
  | String c s' => if isspace c then lstrip s' else s
  end.

Fixpoint rstrip (s : string) : string :=
  match s with
  | EmptyString => EmptyString
  | String c s' =>
      match rstrip s' with
      | EmptyString => if isspace c then EmptyString else String c EmptyString
      | r => String c r
      end
  end.

Definition strip (s : string) : string := rstrip (lstrip s).

Fixpoint collapse_whitespace (s : string) : string :=
  match s with
  | EmptyString => EmptyString
  | String c s' =>
      if isspace c then
        match s' with
        | String c' _ =>
            if isspace c' then collapse_whitespace s'
            else String " " (collapse_whitespace s')
        | EmptyString => String " " EmptyString
        end
      else String c (collapse_whitespace s')
  end.

(** [str(i)] for an integer *)
Definition str (i : Z) : string := pretty i.

(** [range(start, stop, step)] for a positive [step] *)
Definition range (start stop step : Z) : list Z :=
  (fun k : nat => start + Z.of_nat k * step)
    <$> seq 0 (Z.to_nat ((stop - start + step - 1) / step)).

(** [s.split(sep)] for a separator of one character; empty pieces are
    kept. *)
Fixpoint split_on (sep : ascii) (s : string) : list string :=
  match s with
  | EmptyString => [EmptyString]
  | String c s' =>
      if Ascii.eqb c sep then EmptyString :: split_on sep s'
      else
        match split_on sep s' with
        | piece :: pieces => String c piece :: pieces
        | [] => [String c EmptyString]
        end
  end.

(** A [pathlib.Path] on a POSIX system: its root and its components. *)
Record path := MkPath {
  path_root : string;
  path_parts : list string
}.

(** The root of a path text: [//] for exactly two leading slashes, [/] for
    one or for three and more, nothing without a leading slash. *)
Definition root_of (s : string) : string :=
  match s with
  | String c1 s1 =>
      if Ascii.eqb c1 "/" then
        match s1 with
        | String c2 s2 =>
            if Ascii.eqb c2 "/" then
              match s2 with
              | String c3 _ => if Ascii.eqb c3 "/" then "/" else "//"
              | EmptyString => "//"
              end
            else "/"
        | EmptyString => "/"
        end
      else EmptyString
  | EmptyString => EmptyString
  end.

(** [Path(s)]: the pieces between slashes, without the empty ones and
    without the pieces that are a single dot; [..] is kept. *)
Definition Path (s : string) : path :=
  MkPath (root_of s)
    (filter (fun piece => piece <> EmptyString /\ piece <> "."%string)
       (split_on "/" s)).

(** [str(p)] *)
Definition path_str (p : path) : string :=
  match path_root p, path_parts p with
  | EmptyString, [] => "."
  | root, parts => root +:+ join "/" parts
  end.

(** [p.name]: the last component, or the empty string without one. *)
Definition path_name (p : path) : string :=
  default EmptyString (last (path_parts p)).

(** [c.lower()] for one character (code points below 256): the ASCII
    capitals and the Latin-1 capitals 192..222 without the sign 215. *)
Definition lower_char (c : ascii) : ascii :=
  let n := N_of_ascii c in
  if ((65 <=? n)%N && (n <=? 90)%N)
     || ((192 <=? n)%N && (n <=? 222)%N && negb (n =? 215)%N)
  then ascii_of_N (n + 32) else c.

(** [s.lower()] *)
Fixpoint lower (s : string) : string :=
  match s with
  | EmptyString => EmptyString
  | String c s' => String (lower_char c) (lower s')
  end.

(** The class [[a-zA-Z0-9_]] of a regular expression. *)
Definition ident_char (c : ascii) : bool :=
  let n := N_of_ascii c in
  ((97 <=? n)%N && (n <=? 122)%N) || ((65 <=? n)%N && (n <=? 90)%N)
  || ((48 <=? n)%N && (n <=? 57)%N) || (n =? 95)%N.

(** [\w] of a regular expression on [str] (code points below 256): the
    underscore and the characters for which [str.isalnum] holds, which
    besides the ASCII letters and digits are 170, 178, 179, 181, 185, 186,
    188..190 and the Latin-1 letters 192..255 without 215 and 247. *)
Definition word_char (c : ascii) : bool :=
  let n := N_of_ascii c in
  ident_char c
  || (n =? 170)%N || (n =? 178)%N || (n =? 179)%N || (n =? 181)%N
  || (n =? 185)%N || (n =? 186)%N || ((188 <=? n)%N && (n <=? 190)%N)
  || ((192 <=? n)%N && negb (n =? 215)%N && negb (n =? 247)%N).

(** The longest prefix of characters of a class, and what follows it: how
    a greedy [[...]*] consumes its input. *)
Fixpoint span (f : ascii -> bool) (s : string) : string * string :=
  match s with
  | EmptyString => (EmptyString, EmptyString)
  | String c s' =>
      if f c then let r := span f s' in (String c r.1, r.2)
      else (EmptyString, s)
  end.

(** Matching a literal at the start of the input under [re.IGNORECASE]:
    what follows the literal, when the input begins with it up to case. *)
Fixpoint literal_ignorecase (lit s : string) : option string :=
  match lit, s with
  | EmptyString, _ => Some s
  | String a lit', String c s' =>
      if Ascii.eqb (lower_char a) (lower_char c)
      then literal_ignorecase lit' s' else None
  | String _ _, EmptyString => None
  end.

(** [\b] after a word character: the input ends or goes on with a
    character that is not a word character. *)
Definition word_boundary (rest : string) : bool :=
  match rest with
  | EmptyString => true
  | String c _ => negb (word_char c)
  end.

(** Matching a literal at the start of the input (case matters): what
    follows the literal. *)
Fixpoint literal (lit s : string) : option string :=
  match lit, s with
  | EmptyString, _ => Some s
  | String a lit', String c s' =>
      if Ascii.eqb a c then literal lit' s' else None
  | String _ _, EmptyString => None
  end.

(** [len(s.splitlines())]: a line ends at a line feed, a carriage return
    (with the line feed that follows it, if any), or one of the
    characters 11, 12, 28, 29, 30 and 133; [after_cr] says that the
    character before was a carriage return, [in_line] that the current
    line has characters. *)
Fixpoint count_lines (after_cr in_line : bool) (s : string) : Z :=
  match s with
  | EmptyString => if in_line then 1 else 0
  | String c s' =>
      let n := N_of_ascii c in
      if (n =? 13)%N then 1 + count_lines true false s'
      else if (n =? 10)%N then
        (if after_cr then 0 else 1) + count_lines false false s'
      else if ((11 <=? n)%N && (n <=? 12)%N) || ((28 <=? n)%N && (n <=? 30)%N)
              || (n =? 133)%N
      then 1 + count_lines false false s'
      else count_lines false true s'
  end.

(** Reading a text file with universal newlines, as [Path.read_text]
    does: a carriage return and a line feed together, and a carriage
    return alone, are read as one line feed. *)
Fixpoint universal_newlines (s : string) : string :=
  match s with
  | EmptyString => EmptyString
  | String c s' =>
      if Ascii.eqb c "013" then
        match s' with
        | String c' _ =>
            if Ascii.eqb c' "010" then universal_newlines s'
            else String "010" (universal_newlines s')
        | EmptyString => String "010" EmptyString
        end
      else String c (universal_newlines s')
  end.

(** [[0-9]] *)
Definition isdigit (c : ascii) : bool :=
  let n := N_of_ascii c in (48 <=? n)%N && (n <=? 57)%N.

(** [s.split(sep)[0]] for a separator of one character: what comes before
    its first occurrence, or all of [s]. *)
Fixpoint before_first (sep : ascii) (s : string) : string :=
  match s with
  | EmptyString => EmptyString
  | String c s' =>
      if Ascii.eqb c sep then EmptyString else String c (before_first sep s')
  end.

(** [s.replace(old, new)] for an [old] of one character. *)
Fixpoint replace_char (old : ascii) (new : string) (s : string) : string :=
  match s with
  | EmptyString => EmptyString
  | String c s' =>
      if Ascii.eqb c old then new +:+ replace_char old new s'
      else String c (replace_char old new s')
  end.

End Py.

(** ** Data model *)

(** A page as [extract_text] returns it: [{"page": ..., "text": ...}]. *)
Record page_info := PageInfo {
  pi_page : Z;
  pi_text : string
}.

(** A chunk as [chunk_text] returns it. *)
Record chunk := Chunk {
  chunk_id : string;
  text : string;
  page : Z;
  chunk_index : Z;
  word_start : Z;
  word_end : Z
}.

#[global] Instance chunk_eq_dec : EqDecision chunk.
Proof. solve_decision. Defined.

(** ** STEP 2: the sliding-window chunker *)

(** The dictionary appended by one iteration of the [while] loop. *)
Definition make_chunk (words : list string) (page_num chunk_idx start end_ : Z)
  : chunk :=
  {| chunk_id := "p" +:+ Py.str page_num +:+ "_c" +:+ Py.str chunk_idx;
     text := Py.join " " (Py.slice words start end_);
     page := page_num;
     chunk_index := chunk_idx;
     word_start := start;
     word_end := end_ |}.

(** The [while start < len(words)] loop for one page.  The result is the
    list of chunks appended, in order, and the value of [chunk_idx] when
    the loop is left ([None] when [fuel] iterations did not leave it). *)
Fixpoint chunk_page (fuel : nat) (words : list string)
    (page_num chunk_size overlap start chunk_idx : Z)
  : list chunk * option Z :=
  match fuel with
  | O => ([], None)
  | S fuel' =>
      if start <? Py.len words then
        let end_ := Z.min (start + chunk_size) (Py.len words) in
        let c := make_chunk words page_num chunk_idx start end_ in
        if end_ =? Py.len words then ([c], Some (chunk_idx + 1))
        else
          let r := chunk_page fuel' words page_num chunk_size overlap
                     (start + (chunk_size - overlap)) (chunk_idx + 1) in
          (c :: r.1, r.2)
      else ([], Some chunk_idx)
  end.

(** The [for page_info in pages] loop, carrying [chunk_idx]. *)
Fixpoint chunk_pages (fuel : nat) (pages : list page_info)
    (chunk_size overlap chunk_idx : Z) : list chunk * option Z :=
  match pages with
  | [] => ([], Some chunk_idx)
  | page_info :: rest =>
      let words := Py.split (pi_text page_info) in
      let page_num := pi_page page_info in
      let r := chunk_page fuel words page_num chunk_size overlap 0 chunk_idx in
      match r.2 with
      | None => (r.1, None)
      | Some chunk_idx' =>
          let r' := chunk_pages fuel rest chunk_size overlap chunk_idx' in
          (r.1 ++ r'.1, r'.2)
      end
  end.

(** Everything [chunk_text] has appended to [chunks] within the bound. *)
Definition chunk_text_emitted (fuel : nat) (pages : list page_info)
    (chunk_size overlap : Z) : list chunk :=
  (chunk_pages fuel pages chunk_size overlap 0).1.

(** [chunk_text(pages, chunk_size, overlap)]: the returned list, when the
    call returns within the bound. *)
Definition chunk_text (fuel : nat) (pages : list page_info)
    (chunk_size overlap : Z) : option (list chunk) :=
  let r := chunk_pages fuel pages chunk_size overlap 0 in
  match r.2 with
  | Some _ => Some r.1
  | None => None
  end.

(** ** STEP 3: embedding and the vector store

    The embedding model and the store are collaborators from outside the
    repository.  The model is a function from a model name and a text to
    a vector.  A collection maps an id to its embedding, document and
    metadata, and [upsert] inserts or replaces by id, record after record;
    a database maps a directory and a collection name to a collection. *)

Record metadata := Metadata {
  md_page : Z;
  md_chunk_index : Z;
  md_word_start : Z;
  md_word_end : Z;
  md_source : string
}.

Record stats := Stats {
  st_source : string;
  st_collection : string;
  st_db_dir : string;
  st_total_chunks : Z;
  st_model : string
}.

(** The calls that a run makes to its collaborators, in order. *)
Inductive event :=
| EvReadPdf (path : string)
| EvLoadModel (model_name : string)
| EvOpenCollection (db_dir collection_name : string)
| EvUpsert (ids : list string).

Section Store.
Context {vec : Type} (embed : string -> string -> vec).

Record stored := Stored {
  s_embedding : vec;
  s_document : string;
  s_metadata : metadata
}.

(** Modelled from the spec: [collection.upsert(ids=..., documents=...,
    metadatas=...)] of the vector store, a library that is not part of
    the repository.  Section 4.3: a record whose id is already in the
    collection has its vector, text and metadata replaced, otherwise a
    record is created; the vector is the embedding of the document. *)
Fixpoint upsert (model_name : string) (col : gmap string stored)
    (ids documents : list string) (metadatas : list metadata)
  : gmap string stored :=
  match ids, documents, metadatas with
  | i :: ids', d :: documents', m :: metadatas' =>
      upsert model_name
        (<[i := Stored (embed model_name d) d m]> col)
        ids' documents' metadatas'
  | _, _, _ => col
  end.

Definition metadata_of (source_name : string) (c : chunk) : metadata :=
  {| md_page := page c;
     md_chunk_index := chunk_index c;
     md_word_start := word_start c;
     md_word_end := word_end c;
     md_source := source_name |}.

(** The [for i in range(0, len(chunks), batch)] loop. *)
Definition upsert_batches (model_name : string) (batch : Z)
    (ids documents : list string) (metadatas : list metadata)
    (col : gmap string stored) (offsets : list Z) : gmap string stored :=
  foldl (fun col i =>
           upsert model_name col
             (Py.slice ids i (i + batch))
             (Py.slice documents i (i + batch))
             (Py.slice metadatas i (i + batch)))
        col offsets.

(** What [embed_and_store] does to the collection it opened. *)
Definition store_chunks (chunks : list chunk) (model_name source_name : string)
    (col : gmap string stored) : gmap string stored :=
  let ids := chunk_id <$> chunks in
  let documents := text <$> chunks in
  let metadatas := metadata_of source_name <$> chunks in
  let batch := 128 in
  upsert_batches model_name batch ids documents metadatas col
    (Py.range 0 (Py.len chunks) batch).

(** Modelled from the spec: [client.get_or_create_collection] of the
    same library (section 6, open-or-create a named collection); a
    collection that does not exist yet is empty. *)
Definition get_collection (db : gmap (string * string) (gmap string stored))
    (db_dir collection_name : string) : gmap string stored :=
  default ∅ (db !! (db_dir, collection_name)).

(** [embed_and_store(chunks, db_dir, collection_name, model_name,
    source_name)]: the database afterwards, the collaborator calls and
    the returned statistics. *)
Definition embed_and_store (db : gmap (string * string) (gmap string stored))
    (chunks : list chunk)
    (db_dir collection_name model_name source_name : string)
  : gmap (string * string) (gmap string stored) * list event * stats :=
  let col := get_collection db db_dir collection_name in
  let ids := chunk_id <$> chunks in
  let batch := 128 in
  (<[(db_dir, collection_name) :=
       store_chunks chunks model_name source_name col]> db,
   EvLoadModel model_name :: EvOpenCollection db_dir collection_name
     :: ((fun i => EvUpsert (Py.slice ids i (i + batch)))
           <$> Py.range 0 (Py.len chunks) batch),
   {| st_source := source_name;
      st_collection := collection_name;
      st_db_dir := db_dir;
      st_total_chunks := Py.len chunks;
      st_model := model_name |}).

End Store.

(** ** STEP 1 and the command-line entry point *)

(** A Python exception: its class name and its message. *)
Record exn := Exn {
  exn_class : string;
  exn_message : string
}.

(** The parsed command line, [args] as [parser.parse_args()] returns it. *)
Record args := Args {
  a_pdf : string;
  a_db_dir : string;
  a_collection : string;
  a_chunk_size : Z;
  a_overlap : Z;
  a_model : string
}.

(** [pdf_path = Path(args.pdf)], and the text [str(pdf_path)] under which
    [main] names the document. *)
Definition pdf_path (a : args) : Py.path := Py.Path (a_pdf a).

Definition document (a : args) : string := Py.path_str (pdf_path a).

(** How a run of [main] ends. [SystemExit] is [sys.exit(message)]: the
    message goes to standard error and the exit status is 1.  [Uncaught]
    is an exception that nothing catches: traceback and exit status 1.
    [Running] says that the bound was reached inside [chunk_text]. *)
Inductive outcome :=
| Finished
| SystemExit (message : string)
| Uncaught (e : exn)
| Running.



(** The pages loop of [extract_text]: [i] is the index of [enumerate]. *)
Fixpoint extract_pages (i : Z) (raw_pages : list string) : list page_info :=
  match raw_pages with
  | [] => []
  | raw :: rest =>
      let text := Py.strip (Py.collapse_whitespace raw) in
      match text with
      | EmptyString => extract_pages (i + 1) rest
      | _ => PageInfo (i + 1) text :: extract_pages (i + 1) rest
      end
  end.

Section Main.
Context {vec : Type} (embed : string -> string -> vec).

(** What a run sees outside itself: which paths exist, what the PDF
    reader makes of a path (an exception, or the text that
    [page.extract_text() or ""] gives for each page), and the database. *)
Record world := World {
  path_exists : string -> bool;
  pdf_reader : string -> exn + list string;
  database : gmap (string * string) (gmap string (@stored vec))
}.

Record run := Run {
  r_outcome : outcome;
  r_events : list event;
  r_database : gmap (string * string) (gmap string (@stored vec))
}.

(** [extract_text(pdf_path)]; the argument is used as [str(pdf_path)]
    only, and is that text here. *)
Definition extract_text (w : world) (pdf_path : string)
  : exn + list page_info :=
  match pdf_reader w pdf_path with
  | inl e => inl e
  | inr raw_pages => inr (extract_pages 0 raw_pages)
  end.

(** [main()] from [pdf_path = Path(args.pdf)] on, [a] being the [args]
    that [parser.parse_args()] returned.  The path is printed, tested and
    handed to the reader as [str(pdf_path)]. *)
Definition main (fuel : nat) (a : args) (w : world) : run :=
  let pdf_path := Py.Path (a_pdf a) in
  if negb (path_exists w (Py.path_str pdf_path)) then
    Run (SystemExit
           ("[ingest] ❌ File not found: " +:+ Py.path_str pdf_path))
        [] (database w)
  else
    match extract_text w (Py.path_str pdf_path) with
    | inl e =>
        Run (Uncaught e) [EvReadPdf (Py.path_str pdf_path)] (database w)
    | inr pages =>
        match chunk_text fuel pages (a_chunk_size a) (a_overlap a) with
        | None =>
            Run Running [EvReadPdf (Py.path_str pdf_path)] (database w)
        | Some chunks =>
            let r := embed_and_store embed (database w) chunks
                       (a_db_dir a) (a_collection a) (a_model a)
                       (Py.path_name pdf_path) in
            Run Finished (EvReadPdf (Py.path_str pdf_path) :: r.1.2) r.1.1
        end
    end.

(** The world in which a later run starts. *)
Definition after (w : world) (r : run) : world :=
  World (path_exists w) (pdf_reader w) (r_database r).

(** The collection that the arguments name. *)
Definition target (a : args)
    (db : gmap (string * string) (gmap string (@stored vec)))
  : gmap string (@stored vec) :=
  get_collection db (a_db_dir a) (a_collection a).

End Main.

(** ** server.py: the SQLite tools *)

(** [BLOCKED_SQL]: the alternatives of
    [^\s*(DROP|DELETE|...|DETACH)\b], compiled with [re.IGNORECASE]. *)
Definition BLOCKED_KEYWORDS : list string :=
  ["DROP"; "DELETE"; "TRUNCATE"; "ALTER"; "INSERT"; "UPDATE"; "CREATE";
   "REPLACE"; "ATTACH"; "DETACH"]%string.

(** [BLOCKED_SQL.match(s)]: leading whitespace, one of the keywords in
    any case, then a word boundary. *)
Definition BLOCKED_SQL_match (s : string) : bool :=
  existsb (fun keyword =>
             match Py.literal_ignorecase keyword (Py.lstrip s) with
             | Some rest => Py.word_boundary rest
             | None => false
             end)
          BLOCKED_KEYWORDS.

(** [_is_read_only(sql)] *)
Definition _is_read_only (sql : string) : bool :=
  negb (BLOCKED_SQL_match (Py.strip sql)).

(** [_valid_table_name(name)]: [re.match(r"^[a-zA-Z0-9_]+$", name)].  The
    class is matched greedily, and [$] matches at the end of the string
    and also just before a newline that ends the string. *)
Definition _valid_table_name (name : string) : bool :=
  let r := Py.span Py.ident_char name in
  match r.1, r.2 with
  | String _ _, EmptyString => true
  | String _ _, String c EmptyString => Ascii.eqb c "010"
  | _, _ => false
  end.

(** What a tool does with the database, in order. *)
Inductive db_event :=
| DbConnect (uri : string)
| DbExecute (sql : string) (parameters : list Z)
| DbClose.

(** What a tool returns: a plain text, or [json.dumps] of a dictionary,
    kept as the dictionary's fields ([json.dumps] is taken to succeed). *)
Inductive json_field (row value : Type) :=
| JStr (s : string)
| JInt (i : Z)
| JRows (rows : list row)
| JValues (values : list value).
Arguments JStr {row value} s.
Arguments JInt {row value} i.
Arguments JRows {row value} rows.
Arguments JValues {row value} values.

Inductive reply (row value : Type) :=
| Text (s : string)
| Json (fields : list (string * json_field row value)).
Arguments Text {row value} s.
Arguments Json {row value} fields.

Section SqliteTools.
Context {row value : Type}.

(** The database file at [DB_PATH]: whether it exists, and what executing
    a statement with its parameters gives, the rows ([_rows]) or the
    exception that sqlite3 raises.  [item] is [row[key]]. *)
Record sqlite := Sqlite {
  DB_PATH : string;
  db_exists : bool;
  db_execute : string -> list Z -> exn + list row;
  item : row -> string -> exn + value
}.

(** [_get_conn()]: for an existing file [sqlite3.connect] is taken to
    succeed; the connection is known by the URI it was opened with. *)
Definition _get_conn (db : sqlite) : exn + list db_event :=
  if negb (db_exists db) then
    inl (Exn "FileNotFoundError" ("Database not found: " +:+ DB_PATH db))
  else inr [DbConnect ("file:" +:+ DB_PATH db +:+ "?mode=ro")].

(** [[r["name"] for r in rows]] *)
Fixpoint names_of (db : sqlite) (rows : list row) : exn + list value :=
  match rows with
  | [] => inr []
  | r :: rest =>
      match item db r "name" with
      | inl e => inl e
      | inr v =>
          match names_of db rest with
          | inl e => inl e
          | inr vs => inr (v :: vs)
          end
      end
  end.

(** [list_tables()] *)
Definition list_tables (db : sqlite) : reply row value * list db_event :=
  match _get_conn db with
  | inl e => (Text ("Error: " +:+ exn_message e), [])
  | inr opened =>
      let sql := "SELECT name FROM sqlite_master WHERE type='table' ORDER BY name" in
      match db_execute db sql [] with
      | inl e => (Text ("Error: " +:+ exn_message e), opened ++ [DbExecute sql []])
      | inr rows =>
          match names_of db rows with
          | inl e =>
              (Text ("Error: " +:+ exn_message e),
               opened ++ [DbExecute sql []; DbClose])
          | inr tables =>
              (Json [("tables"%string, JValues tables)],
               opened ++ [DbExecute sql []; DbClose])
          end
      end
  end.

(** [describe_table(table)] *)
Definition describe_table (table : string) (db : sqlite)
  : reply row value * list db_event :=
  if negb (_valid_table_name table) then
    (Text "Error: Invalid table name.", [])
  else
    match _get_conn db with
    | inl e => (Text ("Error: " +:+ exn_message e), [])
    | inr opened =>
        let sql := "PRAGMA table_info(" +:+ table +:+ ")" in
        match db_execute db sql [] with
        | inl e =>
            (Text ("Error: " +:+ exn_message e), opened ++ [DbExecute sql []])
        | inr [] =>
            (Text ("Error: Table '" +:+ table +:+ "' does not exist."),
             opened ++ [DbExecute sql []; DbClose])
        | inr cols =>
            (Json [("table"%string, JStr table); ("columns"%string, JRows cols)],
             opened ++ [DbExecute sql []; DbClose])
        end
    end.

(** [sample_table(table, limit)] *)
Definition sample_table (table : string) (limit : Z) (db : sqlite)
  : reply row value * list db_event :=
  if negb (_valid_table_name table) then
    (Text "Error: Invalid table name.", [])
  else
    let limit := Z.min (Z.max 1 limit) 50 in
    match _get_conn db with
    | inl e => (Text ("Error: " +:+ exn_message e), [])
    | inr opened =>
        let sql := "SELECT * FROM " +:+ table +:+ " LIMIT ?" in
        match db_execute db sql [limit] with
        | inl e =>
            (Text ("Error: " +:+ exn_message e),
             opened ++ [DbExecute sql [limit]])
        | inr rows =>
            (Json [("table"%string, JStr table);
                   ("row_count"%string, JInt (Py.len rows));
                   ("rows"%string, JRows rows)],
             opened ++ [DbExecute sql [limit]; DbClose])
        end
    end.

(** [query_database(sql)] *)
Definition query_database (sql : string) (db : sqlite)
  : reply row value * list db_event :=
  if negb (_is_read_only sql) then
    (Text "Error: Only SELECT statements are permitted. Write operations are blocked.",
     [])
  else
    match _get_conn db with
    | inl e => (Text ("Error: " +:+ exn_message e), [])
    | inr opened =>
        match db_execute db sql [] with
        | inl e =>
            (Text ((if String.eqb (exn_class e) "OperationalError"
                    then "SQL error: " else "Error: ") +:+ exn_message e),
             opened ++ [DbExecute sql []])
        | inr rows =>
            (Json [("row_count"%string, JInt (Py.len rows));
                   ("rows"%string, JRows rows)],
             opened ++ [DbExecute sql []; DbClose])
        end
    end.

End SqliteTools.

(** ** server.py: the dashboard tools *)

(** The string of one line feed. *)
Definition newline_char : string := String "010" EmptyString.

(** [STDLIB] *)
Definition STDLIB : list string :=
  ["os"; "sys"; "re"; "json"; "math"; "time"; "datetime"; "random";
   "pathlib"; "collections"; "itertools"; "functools"; "typing";
   "io"; "csv"; "string"; "hashlib"; "copy"; "enum"; "abc"; "sqlite3"]%string.

(** The first character of a package name: [[a-zA-Z_]]. *)
Definition ident_start (c : ascii) : bool :=
  Py.ident_char c && negb (Py.isdigit c).

(** One match, at the start of the input, of the pattern of
    [_extract_imports]: [import] or [from], one or more whitespace
    characters, then group 1, a character of [[a-zA-Z_]] followed by as
    many characters of [[a-zA-Z0-9_]] as there are.  The result is group 1
    and the length of the match. *)
Definition match_import (s : string) : option (string * nat) :=
  let after_keyword :=
    match Py.literal "import" s with
    | Some rest => Some (6%nat, rest)
    | None =>
        match Py.literal "from" s with
        | Some rest => Some (4%nat, rest)
        | None => None
        end
    end in
  match after_keyword with
  | None => None
  | Some (k, rest) =>
      let ws := Py.span Py.isspace rest in
      match ws.1, ws.2 with
      | String _ _, String c _ =>
          if ident_start c then
            let pkg := (Py.span Py.ident_char ws.2).1 in
            Some (pkg, (k + String.length ws.1 + String.length pkg)%nat)
          else None
      | _, _ => None
      end
  end.

(** [re.finditer] with [re.MULTILINE], read character by character:
    [skip] characters still belong to the last match, and [line_start]
    says that the position is the start of the text or follows a line
    feed.  The result lists group 1 of every match, in order. *)
Fixpoint find_imports (skip : nat) (line_start : bool) (s : string)
  : list string :=
  match s with
  | EmptyString => []
  | String c s' =>
      let next := Ascii.eqb c "010" in
      match skip with
      | S k => find_imports k next s'
      | O =>
          if line_start then
            match match_import s with
            | Some (pkg, n) => pkg :: find_imports (pred n) next s'
            | None => find_imports O next s'
            end
          else find_imports O next s'
      end
  end.

(** [_extract_imports(code)], as the set [found]; the order of the list
    that Python makes of it is not fixed. *)
Definition _extract_imports (code : string) : gset string :=
  list_to_set (filter (fun pkg => pkg ∉ STDLIB) (find_imports O true code)).

(** The state of the server: the global [streamlit_process] (a process is
    named by the number of the [Popen] call that started it), the started
    processes that have not exited, the text written in [DASHBOARD_FILE]
    when the file exists (taken to be UTF-8 text), the number of processes
    started so far, and the package lists handed to pip. *)
Record server := Server {
  streamlit_process : option nat;
  running : gset nat;
  dashboard_file : option string;
  started : nat;
  pip_calls : list (list string)
}.

(** What is sent to a tool, or happens to the server from outside. *)
Inductive command :=
| CreateDashboard (code : string)
| StopDashboard
| GetDashboardStatus
| ReadDashboard
| ProcessExits (pid : nat).

Section Dashboard.
(** [PORT]; what pip answers for a package list (return code and standard
    error); the order in which [list(found)] lists a set; the process id
    that the operating system gives to the process of each [Popen] call. *)
Variables (PORT : Z) (pip : list string -> Z * string)
          (listing : gset string -> list string) (pid_of : nat -> Z).

(** [streamlit_process and streamlit_process.poll() is None] *)
Definition is_running (s : server) : bool :=
  match streamlit_process s with
  | Some pid => bool_decide (pid ∈ running s)
  | None => false
  end.

(** [_install(packages)] *)
Definition _install (packages : list string) (s : server) : string * server :=
  match packages with
  | [] => ("No packages to install."%string, s)
  | _ =>
      let r := pip packages in
      ((if r.1 =? 0 then "Installed: " +:+ Py.join ", " packages
        else "pip error:" +:+ newline_char +:+ r.2),
       Server (streamlit_process s) (running s) (dashboard_file s) (started s)
         (pip_calls s ++ [packages]))
  end.

(** [_start_streamlit()]: a running process is terminated and waited for
    before the new one is started. *)
Definition _start_streamlit (s : server) : string * server :=
  match dashboard_file s with
  | None => ("No dashboard.py found. Create one first."%string, s)
  | Some _ =>
      let stopped :=
        match streamlit_process s with
        | Some pid => running s ∖ {[pid]}
        | None => running s
        end in
      ("Streamlit running at http://localhost:" +:+ Py.str PORT,
       Server (Some (started s)) ({[started s]} ∪ stopped) (dashboard_file s)
         (S (started s)) (pip_calls s))
  end.

(** [create_dashboard(code)] *)
Definition create_dashboard (code : string) (s : server) : string * server :=
  let packages := listing (_extract_imports code) in
  let installed := _install packages s in
  let install_log := installed.1 in
  let written :=
    Server (streamlit_process installed.2) (running installed.2) (Some code)
      (started installed.2) (pip_calls installed.2) in
  let r :=
    if negb (is_running written) then _start_streamlit written
    else ("Dashboard updated — auto-reloaded at http://localhost:"
            +:+ Py.str PORT, written) in
  (Py.join newline_char
     ["✅ dashboard.py written ("
        +:+ Py.str (Py.count_lines false false code) +:+ " lines)";
      "📦 " +:+ install_log;
      "🚀 " +:+ r.1],
   r.2).

(** [stop_dashboard()] *)
Definition stop_dashboard (s : server) : string * server :=
  if negb (is_running s) then ("No dashboard is currently running."%string, s)
  else
    ("✅ Streamlit dashboard stopped."%string,
     Server None
       (match streamlit_process s with
        | Some pid => running s ∖ {[pid]}
        | None => running s
        end)
       (dashboard_file s) (started s) (pip_calls s)).

(** [get_dashboard_status()] *)
Definition get_dashboard_status (s : server) : string :=
  match streamlit_process s with
  | Some pid =>
      if bool_decide (pid ∈ running s) then
        "🟢 Running at http://localhost:" +:+ Py.str PORT
          +:+ " (PID " +:+ Py.str (pid_of pid) +:+ ")"
      else "🔴 Not running."
  | None => "🔴 Not running."
  end.

(** [read_dashboard()]: [read_text] reads the file with universal
    newlines. *)
Definition read_dashboard (s : server) : string :=
  match dashboard_file s with
  | None => "No dashboard.py exists yet."
  | Some written => Py.universal_newlines written
  end.

(** One tool call, or the exit of a process by itself. *)
Definition step (c : command) (s : server) : string * server :=
  match c with
  | CreateDashboard code => create_dashboard code s
  | StopDashboard => stop_dashboard s
  | GetDashboardStatus => (get_dashboard_status s, s)
  | ReadDashboard => (read_dashboard s, s)
  | ProcessExits pid =>
      (EmptyString,
       Server (streamlit_process s) (running s ∖ {[pid]}) (dashboard_file s)
         (started s) (pip_calls s))
  end.

(** The server after a sequence of commands. *)
Definition run_commands (cs : list command) (s : server) : server :=
  foldl (fun s c => (step c s).2) s cs.

End Dashboard.

(** ** ingest_pdf.py: the dependency bootstrap *)

(** The module that [_ensure] tries to import for a package:
    [pkg.split("[")[0].replace("-", "_")]. *)
Definition module_name (pkg : string) : string :=
  Py.replace_char "-" "_" (Py.before_first "[" pkg).

Section Ensure.
(** What [pip install pkg] does to the set of importable modules; [None]
    when pip fails and [check_call] raises. *)
Variable pip_install : string -> gset string -> option (gset string).

(** [_ensure] over its packages: the packages handed to pip, in order,
    and the importable modules afterwards ([None] when a pip call failed,
    which ends the loop with [CalledProcessError]).  An import fails with
    [ImportError] exactly for a module outside [modules]; an import that
    raises something else is not modelled. *)
Fixpoint _ensure (pkgs : list string) (modules : gset string)
  : list string * option (gset string) :=
  match pkgs with
  | [] => ([], Some modules)
  | pkg :: rest =>
      if bool_decide (module_name pkg ∈ modules) then _ensure rest modules
      else
        match pip_install pkg modules with
        | None => ([pkg], None)
        | Some modules' =>
            let r := _ensure rest modules' in (pkg :: r.1, r.2)
        end
  end.

End Ensure.

(** ** seed.py: e-mail addresses *)

(** [rand_email(name, domain)] *)
Definition rand_email (name domain : string) : string :=
  let clean :=
    Py.replace_char "'" EmptyString
      (Py.replace_char " " "." (Py.lower name)) in
  clean +:+ "@" +:+ domain.

(** * Part II: the vocabulary of the properties *)

(** ** Bounds and the chunks of one page *)

(** A bound that is enough for every page when the stride is positive:
    one more than the longest page's word count. *)
Definition enough_fuel (pages : list page_info) : nat :=
  S (foldr (fun p m => Nat.max (length (Py.split (pi_text p))) m) O pages).

(** The chunks of one page, [chunk_idx] being the counter on entry. *)
Definition page_chunks (p : page_info) (chunk_size overlap chunk_idx : Z)
  : list chunk :=
  (chunk_page (S (length (Py.split (pi_text p)))) (Py.split (pi_text p))
     (pi_page p) chunk_size overlap 0 chunk_idx).1.

(** ** The page loop as a relation

    [windows words page_num cs ov start idx l idx'] holds when the [while]
    loop entered with cursor [start] and counter [idx] leaves after
    appending [l], with counter [idx']. *)

Inductive windows (words : list string) (page_num chunk_size overlap : Z)
  : Z -> Z -> list chunk -> Z -> Prop :=
| windows_exit start idx :
    Py.len words <= start ->
    windows words page_num chunk_size overlap start idx [] idx
| windows_break start idx :
    start < Py.len words ->
    Z.min (start + chunk_size) (Py.len words) = Py.len words ->
    windows words page_num chunk_size overlap start idx
      [make_chunk words page_num idx start (Py.len words)] (idx + 1)
| windows_slide start idx l idx' :
    start < Py.len words ->
    start + chunk_size < Py.len words ->
    windows words page_num chunk_size overlap
      (start + (chunk_size - overlap)) (idx + 1) l idx' ->
    windows words page_num chunk_size overlap start idx
      (make_chunk words page_num idx start (start + chunk_size) :: l) idx'.

(** ** Counters, identifiers and ranges *)

(** The identifier that the f-string of [chunk_text] builds. *)
Definition id_of (page_num chunk_idx : Z) : string :=
  "p" +:+ Py.str page_num +:+ "_c" +:+ Py.str chunk_idx.

(** The chunk identifier is rebuilt from the chunk's own fields. *)
Definition well_named (c : chunk) : Prop :=
  chunk_id c = id_of (page c) (chunk_index c).

(** The counters of a chunk list are [idx], [idx + 1], ... in order. *)
Definition numbered_from (idx : Z) (l : list chunk) : Prop :=
  chunk_index <$> l = (fun i : nat => idx + Z.of_nat i) <$> seq 0 (length l).

(** The number of words that two ranges have in common. *)
Definition range_overlap (a b : chunk) : Z :=
  Z.max 0 (Z.min (word_end a) (word_end b)
           - Z.max (word_start a) (word_start b)).

Fixpoint no_underscore (s : string) : Prop :=
  match s with
  | EmptyString => True
  | String c s' => c <> "_"%char /\ no_underscore s'
  end.

(** ** Words and chunk contents *)

Fixpoint no_space (s : string) : Prop :=
  match s with
  | EmptyString => True
  | String c s' => Py.isspace c = false /\ no_space s'
  end.

(** A word: a non-empty string without whitespace. *)
Definition is_word (w : string) : Prop := w <> EmptyString /\ no_space w.

(** What C8 says of one chunk of a page whose word list is [words]. *)
Definition chunk_contents_ok (words : list string) (chunk_size : Z) (c : chunk)
  : Prop :=
  let range := take (Z.to_nat (word_end c - word_start c))
                 (drop (Z.to_nat (word_start c)) words) in
  0 <= word_start c <= word_end c
  /\ word_end c = Z.min (word_start c + chunk_size) (Py.len words)
  /\ text c = Py.join " " range
  /\ Py.split (text c) = range
  /\ Py.len (Py.split (text c)) = word_end c - word_start c.

(** ** One giant batch *)

Section OneBatch.
Context {vec : Type} (embed : string -> string -> vec).

(** The record that a chunk becomes, and one giant batch as the
    specification describes it: every record upserted by id, in order. *)
Definition stored_of (model_name source_name : string) (c : chunk) : stored :=
  Stored (embed model_name (text c)) (text c) (metadata_of source_name c).

Definition upsert_all (chunks : list chunk) (model_name source_name : string)
    (col : gmap string stored) : gmap string stored :=
  foldl (fun col c => <[chunk_id c := stored_of model_name source_name c]> col)
        col chunks.

End OneBatch.

(** The last chunk of a list that carries a given id. *)
Fixpoint last_with_id (k : string) (chunks : list chunk) : option chunk :=
  match chunks with
  | [] => None
  | c :: rest =>
      match last_with_id k rest with
      | Some c' => Some c'
      | None => if decide (chunk_id c = k) then Some c else None
      end
  end.

(** The ids handed to the store by the upsert events of a trace. *)
Definition upserted_ids (evs : list event) : list string :=
  mjoin ((fun e => match e with EvUpsert ids => ids | _ => [] end) <$> evs).

(** ** Inputs for the examples *)

Definition words_n (n : nat) : string :=
  Py.join " " (replicate n "w"%string).

(** A world with one readable PDF, for the examples. *)
Definition one_file (path : string) (raw_pages : list string)
    (db : gmap (string * string) (gmap string (@stored unit))) : @world unit :=
  World (fun p => bool_decide (p = path))
        (fun p => if decide (p = path) then inr raw_pages
                  else inl (Exn "FileNotFoundError" p))
        db.

(** ** Whitespace normalisation *)

(** The text that [extract_text] keeps of a page:
    [re.sub(r"\s+", " ", text).strip()]. *)
Definition normalized (raw : string) : string :=
  Py.strip (Py.collapse_whitespace raw).

(** Does a string begin with a whitespace character? *)
Definition starts_with_space (s : string) : bool :=
  match s with
  | EmptyString => false
  | String c _ => Py.isspace c
  end.

(** ** Rebuilding a page from its chunks *)

(** The words of a chunk, as a reader of the store gets them back. *)
Definition chunk_words (c : chunk) : list string := Py.split (text c).

(** The first chunk's words, then the words of each later chunk without
    the [k] words that it repeats. *)
Definition rebuild (k : nat) (l : list chunk) : list string :=
  match l with
  | [] => []
  | c :: rest => chunk_words c ++ mjoin ((fun c' => drop k (chunk_words c')) <$> rest)
  end.

(** Document order: by page, then by position in the page. *)
Definition before_in_document (a b : chunk) : Prop :=
  page a < page b \/ (page a = page b /\ word_start a < word_start b).

(** A page that has words. *)
Definition has_words (p : page_info) : bool :=
  negb (bool_decide (Py.split (pi_text p) = [])).

(** ** Calls to the store *)

(** The id lists of the upsert calls of a trace, one per call. *)
Definition upsert_calls (evs : list event) : list (list string) :=
  omap (fun e => match e with EvUpsert ids => Some ids | _ => None end) evs.

(** ** Characters of a string *)

(** Every character of a string is in a class. *)
Fixpoint every (f : ascii -> bool) (s : string) : Prop :=
  match s with
  | EmptyString => True
  | String c s' => f c = true /\ every f s'
  end.

(** The connection of a tool call is used for one statement at most: it
    is not opened, or opened for a statement that raises and then left
    open, or opened for a statement that succeeds and then closed. *)
Definition one_statement {row value : Type} (db : @sqlite row value)
    (evs : list db_event) : Prop :=
  evs = []
  \/ exists sql parameters,
       (evs = [DbConnect ("file:" +:+ DB_PATH db +:+ "?mode=ro");
               DbExecute sql parameters]
        /\ exists e, db_execute db sql parameters = inl e)
       \/ (evs = [DbConnect ("file:" +:+ DB_PATH db +:+ "?mode=ro");
                  DbExecute sql parameters; DbClose]
           /\ exists rows, db_execute db sql parameters = inr rows).

(** ** The dashboard process *)

(** Every started process that has not exited is the one that the server
    keeps in [streamlit_process]. *)
Definition tracked (s : server) : Prop :=
  forall pid, pid ∈ running s -> streamlit_process s = Some pid.

(** The server at start-up, [file] being what [DASHBOARD_FILE] holds. *)
Definition initial_server (file : option string) : server :=
  Server None ∅ file 0 [].

(** ** Characters that a string does not have *)

(** A character does not occur in a string. *)
Fixpoint lacks (x : ascii) (s : string) : Prop :=
  match s with
  | EmptyString => True
  | String c s' => c <> x /\ lacks x s'
  end.

(** * Part III: properties *)

(** ** The program on concrete inputs *)

Example split_example :
  Py.split "  the quick
 brown	fox " = ["the"; "quick"; "brown"; "fox"]%string.
Proof. reflexivity. Qed.

Example small_page :
  (fun c => (word_start c, word_end c)) <$>
    chunk_text_emitted 5 [PageInfo 1 (words_n 10)] 512 128 = [(0, 10)].
Proof. vm_compute. reflexivity. Qed.

Example exact_multiple :
  (fun c => (chunk_id c, word_start c, word_end c)) <$>
    chunk_text_emitted 5 [PageInfo 3 (words_n 1024)] 512 128
  = [("p3_c0"%string, 0, 512); ("p3_c1"%string, 384, 896);
     ("p3_c2"%string, 768, 1024)].
Proof. vm_compute. reflexivity. Qed.

Example index_across_empty_page :
  (fun c => (chunk_id c, page c, chunk_index c)) <$>
    chunk_text_emitted 9
      [PageInfo 1 "a b c d e"; PageInfo 2 ""; PageInfo 3 "f g"] 3 1
  = [("p1_c0"%string, 1, 0); ("p1_c1"%string, 1, 1);
     ("p3_c2"%string, 3, 2)].
Proof. vm_compute. reflexivity. Qed.

Example batch_boundary :
  let chunks := chunk_text_emitted 131 [PageInfo 1 (words_n 130)] 1 0 in
  length chunks = 130%nat
  /\ length <$> ((fun e => match e with EvUpsert ids => ids | _ => [] end)
       <$> (embed_and_store (fun _ _ => tt) ∅ chunks "db" "docs" "m" "f.pdf").1.2)
     = [0; 0; 128; 2]%nat.
Proof. vm_compute. split; reflexivity. Qed.

Example main_example :
  let r := main (fun _ _ => tt) 9
             (Args "docs/a.pdf" "./data/vector_db" "docs" 3 1 "m")
             (one_file "docs/a.pdf" ["  a b  c
 d e"; "   "; "f g"] ∅) in
  r_outcome r = Finished
  /\ r_events r
     = [EvReadPdf "docs/a.pdf"; EvLoadModel "m";
        EvOpenCollection "./data/vector_db" "docs";
        EvUpsert ["p1_c0"; "p1_c1"; "p3_c2"]%string]
  /\ (fun s => md_source (s_metadata s))
       <$> (target (Args "docs/a.pdf" "./data/vector_db" "docs" 3 1 "m")
              (r_database r) !! "p3_c2"%string)
     = Some "a.pdf"%string.
Proof. vm_compute. repeat split; reflexivity. Qed.

(** ** The page loop *)

Section PageLoop.
Variables (words : list string) (page_num chunk_size overlap : Z).

Local Abbreviation n := (Py.len words).
Local Abbreviation loop fuel := (chunk_page fuel words page_num chunk_size overlap).
Local Abbreviation W := (windows words page_num chunk_size overlap).

Lemma chunk_page_windows fuel start idx l idx' :
  loop fuel start idx = (l, Some idx') -> W start idx l idx'.
Proof.
  revert start idx l idx'.
  induction fuel as [|fuel IH]; intros start idx l idx' E; simpl in E.
  - discriminate.
  - destruct (Z.ltb_spec start n) as [Hlt|Hge].
    + destruct (Z.eqb_spec (Z.min (start + chunk_size) n) n) as [Hend|Hend].
      * injection E as <- <-. rewrite Hend. by constructor.
      * destruct (loop fuel (start + (chunk_size - overlap)) (idx + 1))
          as [l1 r1] eqn:E1.
        simpl in E. injection E as <- ->.
        assert (Z.min (start + chunk_size) n = start + chunk_size) as -> by lia.
        constructor; [done | lia | by apply IH].
    + injection E as <- <-. by constructor.
Qed.

Lemma windows_chunk_page start idx l idx' :
  W start idx l idx' ->
  forall fuel, (length l < fuel)%nat -> loop fuel start idx = (l, Some idx').
Proof.
  induction 1 as [start idx Hge | start idx Hlt Hend
                 | start idx l idx' Hlt Hend _ IH];
    intros [|fuel] Hf; simpl in Hf; try lia; simpl.
  - destruct (Z.ltb_spec start n); [lia | done].
  - destruct (Z.ltb_spec start n); [| lia].
    rewrite Hend, Z.eqb_refl. done.
  - destruct (Z.ltb_spec start n); [| lia].
    assert (Z.min (start + chunk_size) n = start + chunk_size) as -> by lia.
    destruct (Z.eqb_spec (start + chunk_size) n); [lia |].
    rewrite IH by lia. done.
Qed.

(** More fuel does not change the outcome of a loop that was left. *)
Lemma chunk_page_fuel_mono fuel fuel' start idx l idx' :
  loop fuel start idx = (l, Some idx') -> (fuel <= fuel')%nat ->
  loop fuel' start idx = (l, Some idx').
Proof.
  revert fuel' start idx l idx'.
  induction fuel as [|fuel IH]; intros [|fuel'] start idx l idx' E Hf;
    simpl in *; try discriminate; try lia.
  destruct (Z.ltb_spec start n); [| done].
  destruct (Z.eqb_spec (Z.min (start + chunk_size) n) n); [done |].
  destruct (loop fuel (start + (chunk_size - overlap)) (idx + 1))
    as [l1 r1] eqn:E1.
  simpl in E. injection E as <- ->.
  rewrite (IH fuel' _ _ _ _ E1) by lia. done.
Qed.

(** What was appended within a smaller bound is a prefix of what is
    appended within a larger one. *)
Lemma chunk_page_emitted_prefix fuel fuel' start idx :
  (fuel <= fuel')%nat ->
  (loop fuel start idx).1 `prefix_of` (loop fuel' start idx).1.
Proof.
  revert fuel' start idx.
  induction fuel as [|fuel IH]; intros fuel' start idx Hf; simpl.
  - apply prefix_nil.
  - destruct fuel' as [|fuel']; [lia |]. simpl.
    destruct (start <? n); [| done].
    destruct (Z.min (start + chunk_size) n =? n); [done |].
    simpl. apply prefix_cons, IH. lia.
Qed.

(** The cursor strictly increases on an iteration that does not leave
    the loop, and the loop is left within [len(words) - start + 1]
    tests when it starts at a non-negative cursor. *)
Lemma chunk_page_terminates fuel start idx :
  0 < chunk_size - overlap -> 0 <= start ->
  Z.max 0 (n - start) < Z.of_nat fuel ->
  exists l idx', loop fuel start idx = (l, Some idx').
Proof.
  intros Hstride. revert start idx.
  induction fuel as [|fuel IH]; intros start idx H0 Hf; [lia |].
  simpl. destruct (Z.ltb_spec start n); [| by eauto].
  destruct (Z.eqb_spec (Z.min (start + chunk_size) n) n); [by eauto |].
  destruct (IH (start + (chunk_size - overlap)) (idx + 1)) as (l & idx' & E);
    [lia | lia |].
  rewrite E. simpl. eauto.
Qed.

(** With a stride that is not positive, a page with more than
    [chunk_size] words is never finished. *)
Lemma chunk_page_spins fuel start idx :
  chunk_size - overlap <= 0 -> start <= 0 -> chunk_size < n -> 0 < n ->
  (loop fuel start idx).2 = None /\ length (loop fuel start idx).1 = fuel.
Proof.
  intros Hstride. revert start idx.
  induction fuel as [|fuel IH]; intros start idx H0 Hcs Hn; [done |].
  simpl. destruct (Z.ltb_spec start n); [| lia].
  destruct (Z.eqb_spec (Z.min (start + chunk_size) n) n); [lia |].
  simpl. destruct (IH (start + (chunk_size - overlap)) (idx + 1)) as [-> ->];
    [lia | lia | lia | done].
Qed.

(** *** Fields of the emitted chunks *)

Lemma windows_counter start idx l idx' :
  W start idx l idx' -> idx' = idx + Py.len l.
Proof.
  unfold Py.len. induction 1; simpl length; lia.
Qed.

Lemma windows_lookup start idx l idx' (i : nat) c :
  W start idx l idx' -> l !! i = Some c ->
  c = make_chunk words page_num (idx + Z.of_nat i)
        (start + Z.of_nat i * (chunk_size - overlap))
        (Z.min (start + Z.of_nat i * (chunk_size - overlap) + chunk_size) n)
  /\ start + Z.of_nat i * (chunk_size - overlap) < n.
Proof.
  intros HW. revert i.
  induction HW as [start idx Hge | start idx Hlt Hend
                  | start idx l idx' Hlt Hend _ IH]; intros i Hi.
  - done.
  - destruct i as [|i]; [| done]. injection Hi as <-.
    change (Z.of_nat 0) with 0.
    split; [f_equal; lia | lia].
  - destruct i as [|i]; simpl in Hi.
    + injection Hi as <-. change (Z.of_nat 0) with 0.
      split; [f_equal; lia | lia].
    + destruct (IH i Hi) as [-> Hlt'].
      replace (idx + 1 + Z.of_nat i) with (idx + Z.of_nat (S i)) by lia.
      replace (start + (chunk_size - overlap)
               + Z.of_nat i * (chunk_size - overlap))
        with (start + Z.of_nat (S i) * (chunk_size - overlap)) in * by lia.
      done.
Qed.

(** A chunk followed by another one is a full window, and the next one
    starts one stride later. *)
Lemma windows_adjacent start idx l idx' (i : nat) a b :
  W start idx l idx' -> l !! i = Some a -> l !! S i = Some b ->
  word_end a = word_start a + chunk_size /\ word_end a < n
  /\ word_start b = word_start a + (chunk_size - overlap)
  /\ chunk_index b = chunk_index a + 1.
Proof.
  intros HW. revert i.
  induction HW as [start idx Hge | start idx Hlt Hend
                  | start idx l idx' Hlt Hend HW IH]; intros i Ha Hb.
  - done.
  - by destruct i.
  - destruct i as [|i]; simpl in Ha, Hb.
    + injection Ha as <-. simpl.
      destruct (windows_lookup _ _ _ _ 0%nat b HW Hb) as [-> _].
      simpl. lia.
    + by apply (IH i).
Qed.

(** With a non-negative overlap the last chunk of a page ends at the
    page's last word. *)
Lemma windows_last start idx l idx' c :
  0 <= overlap ->
  W start idx l idx' -> last l = Some c -> word_end c = n.
Proof.
  intros Hov.
  induction 1 as [start idx Hge | start idx Hlt Hend
                 | start idx l idx' Hlt Hend HW IH]; intros Hl.
  - done.
  - by injection Hl as <-.
  - destruct l as [|b l]; [| by apply IH].
    inversion HW; lia.
Qed.

Lemma windows_nonempty start idx l idx' :
  W start idx l idx' -> start < n -> l <> [].
Proof. destruct 1; (lia || done). Qed.

(** Every word position from the cursor on lies in some emitted range,
    provided the stride is positive and at most the window width. *)
Lemma windows_cover start idx l idx' k :
  W start idx l idx' ->
  0 < chunk_size - overlap <= chunk_size ->
  start <= k < n ->
  exists c, c ∈ l /\ word_start c <= k < word_end c.
Proof.
  intros HW Hs. revert k.
  induction HW as [start idx Hge | start idx Hlt Hend
                  | start idx l idx' Hlt Hend HW IH]; intros k Hk.
  - lia.
  - eexists. split; [apply list_elem_of_here |]. simpl. lia.
  - destruct (Z.lt_ge_cases k (start + chunk_size)) as [Hin|Hout].
    + eexists. split; [apply list_elem_of_here |]. simpl. lia.
    + destruct (IH k) as (c & Hc & Hr); [lia |].
      exists c. split; [by apply list_elem_of_further | done].
Qed.

End PageLoop.

(** ** Facts that hold for every bound, also when a loop is not left *)

Lemma numbered_from_nil idx : numbered_from idx [].
Proof. done. Qed.

Lemma numbered_from_cons idx c l :
  chunk_index c = idx -> numbered_from (idx + 1) l -> numbered_from idx (c :: l).
Proof.
  unfold numbered_from. intros Hc Hl. cbn [length seq].
  rewrite !fmap_cons, Hc, Hl, <- fmap_S_seq, <- list_fmap_compose.
  f_equal; [lia |].
  apply list_fmap_ext. intros _ i _. simpl. lia.
Qed.

Lemma numbered_from_inv idx c l :
  numbered_from idx (c :: l) -> chunk_index c = idx /\ numbered_from (idx + 1) l.
Proof.
  unfold numbered_from. cbn [length seq].
  rewrite !fmap_cons, <- fmap_S_seq, <- list_fmap_compose.
  intros [= Hc Hl]. split; [lia |]. rewrite Hl.
  apply list_fmap_ext. intros _ i _. simpl. lia.
Qed.

Lemma numbered_from_app idx l1 l2 :
  numbered_from idx l1 -> numbered_from (idx + Py.len l1) l2 ->
  numbered_from idx (l1 ++ l2).
Proof.
  revert idx. induction l1 as [|c l1 IH]; intros idx H1 H2.
  - unfold Py.len in H2. simpl in H2. by rewrite Z.add_0_r in H2.
  - simpl. apply numbered_from_inv in H1 as [Hc H1].
    apply numbered_from_cons; [done |].
    apply IH; [done |].
    + unfold Py.len in *. simpl length in H2.
      by replace (idx + 1 + Z.of_nat (length l1))
        with (idx + Z.of_nat (S (length l1))) by lia.
Qed.

Lemma numbered_from_lookup idx l (i : nat) c :
  numbered_from idx l -> l !! i = Some c -> chunk_index c = idx + Z.of_nat i.
Proof.
  unfold numbered_from. intros Hn Hi.
  assert (Hc : (chunk_index <$> l) !! i = Some (chunk_index c))
    by (by rewrite list_lookup_fmap, Hi).
  rewrite Hn, list_lookup_fmap in Hc.
  apply lookup_lt_Some in Hi.
  rewrite lookup_seq_lt in Hc by done. simpl in Hc. by injection Hc.
Qed.

Lemma chunk_page_numbered fuel words page_num chunk_size overlap start idx :
  let r := chunk_page fuel words page_num chunk_size overlap start idx in
  numbered_from idx r.1
  /\ Forall (fun c => well_named c /\ page c = page_num) r.1
  /\ (forall idx', r.2 = Some idx' -> idx' = idx + Py.len r.1).
Proof.
  revert start idx. induction fuel as [|fuel IH]; intros start idx; simpl.
  - split; [done |]. split; [done |]. done.
  - destruct (start <? Py.len words).
    + destruct (_ =? Py.len words); simpl.
      * split; [by apply numbered_from_cons |].
        split; [by repeat constructor |].
        unfold Py.len. simpl. intros idx' [= <-]. done.
      * destruct (IH (start + (chunk_size - overlap)) (idx + 1))
          as (Hn & Hf & Hc).
        split; [by apply numbered_from_cons |].
        split; [by repeat constructor |].
        intros idx' E. rewrite (Hc idx' E). unfold Py.len. simpl length. lia.
    + simpl. split; [done |]. split; [done |].
      unfold Py.len. simpl. intros idx' [= <-]. lia.
Qed.

Lemma chunk_pages_numbered fuel pages chunk_size overlap idx :
  let r := chunk_pages fuel pages chunk_size overlap idx in
  numbered_from idx r.1 /\ Forall well_named r.1
  /\ (forall idx', r.2 = Some idx' -> idx' = idx + Py.len r.1).
Proof.
  revert idx. induction pages as [|p rest IH]; intros idx; simpl.
  - split; [done |]. split; [done |].
    unfold Py.len. simpl. intros idx' [= <-]. lia.
  - destruct (chunk_page_numbered fuel (Py.split (pi_text p)) (pi_page p)
                chunk_size overlap 0 idx) as (Hn & Hf & Hc).
    destruct (chunk_page fuel _ _ _ _ 0 idx) as [l1 [i1|]]; simpl in *.
    + pose proof (Hc i1 eq_refl) as Hi1. clear Hc. subst i1.
      destruct (IH (idx + Py.len l1)) as (Hn' & Hf' & Hc').
      split; [by apply numbered_from_app |].
      split.
      { apply Forall_app. split; [| done].
        eapply Forall_impl; [exact Hf |]. by intros c [? _]. }
      intros idx' E. rewrite (Hc' idx' E).
      unfold Py.len. rewrite length_app. lia.
    + split; [done |]. split; [| done].
      eapply Forall_impl; [exact Hf |]. by intros c [? _].
Qed.

(** ** Splitting the document loop at a page *)

Lemma chunk_pages_app fuel pre post chunk_size overlap idx l1 idx1 :
  chunk_pages fuel pre chunk_size overlap idx = (l1, Some idx1) ->
  chunk_pages fuel (pre ++ post) chunk_size overlap idx
  = (l1 ++ (chunk_pages fuel post chunk_size overlap idx1).1,
     (chunk_pages fuel post chunk_size overlap idx1).2).
Proof.
  revert idx l1 idx1. induction pre as [|p pre IH]; intros idx l1 idx1 E.
  - simpl in E. injection E as <- <-. simpl. by destruct (chunk_pages _ _ _ _ _).
  - simpl in *.
    destruct (chunk_page fuel _ _ _ _ 0 idx) as [l0 [i0|]]; simpl in *;
      [| discriminate].
    destruct (chunk_pages fuel pre chunk_size overlap i0) as [l2 r2] eqn:E2.
    simpl in E. injection E as <- ->.
    rewrite (IH _ _ _ E2). simpl. by rewrite app_assoc.
Qed.

Lemma enough_fuel_page pages p :
  p ∈ pages -> (length (Py.split (pi_text p)) < enough_fuel pages)%nat.
Proof.
  unfold enough_fuel. induction 1 as [p pages | p q pages _ IH]; simpl in *; lia.
Qed.

Lemma chunk_pages_terminates fuel pages chunk_size overlap idx :
  0 < chunk_size - overlap ->
  Forall (fun p => (length (Py.split (pi_text p)) < fuel)%nat) pages ->
  exists l idx', chunk_pages fuel pages chunk_size overlap idx = (l, Some idx').
Proof.
  intros Hs Hf. revert idx.
  induction Hf as [|p rest Hp _ IH]; intros idx; simpl; [by eauto |].
  destruct (chunk_page_terminates (Py.split (pi_text p)) (pi_page p)
              chunk_size overlap fuel 0 idx) as (l1 & i1 & E1);
    [done | done | unfold Py.len; lia |].
  rewrite E1. simpl. destruct (IH i1) as (l2 & i2 & E2).
  rewrite E2. simpl. eauto.
Qed.

Lemma page_chunks_fuel p chunk_size overlap idx fuel :
  0 < chunk_size - overlap ->
  (length (Py.split (pi_text p)) < fuel)%nat ->
  exists idx',
    chunk_page fuel (Py.split (pi_text p)) (pi_page p) chunk_size overlap 0 idx
    = (page_chunks p chunk_size overlap idx, Some idx').
Proof.
  intros Hs Hf. unfold page_chunks.
  destruct (chunk_page_terminates (Py.split (pi_text p)) (pi_page p)
              chunk_size overlap (S (length (Py.split (pi_text p)))) 0 idx)
    as (l & idx' & E); [done | done | unfold Py.len; lia |].
  rewrite E. simpl. exists idx'.
  eapply chunk_page_fuel_mono; [exact E | lia].
Qed.

(** Under a positive stride [chunk_text] returns, and its result is the
    chunks of the pages before [p], then those of [p], then the rest. *)
Lemma chunk_text_segment pre p post chunk_size overlap :
  0 < chunk_size - overlap ->
  exists before after,
    chunk_text (enough_fuel (pre ++ p :: post)) (pre ++ p :: post)
      chunk_size overlap
    = Some (before ++ page_chunks p chunk_size overlap (Py.len before) ++ after)
    /\ chunk_text (enough_fuel (pre ++ p :: post)) pre chunk_size overlap
       = Some before.
Proof.
  intros Hs. remember (enough_fuel (pre ++ p :: post)) as fuel eqn:Hfuel.
  assert (Hall : Forall (fun q => (length (Py.split (pi_text q)) < fuel)%nat)
                   (pre ++ p :: post)).
  { apply Forall_forall. intros q Hq. subst fuel. by apply enough_fuel_page. }
  apply Forall_app in Hall as [Hpre Hrest].
  apply Forall_cons in Hrest as [Hp Hpost].
  destruct (chunk_pages_terminates fuel pre chunk_size overlap 0 Hs Hpre)
    as (before & i1 & E1).
  pose proof (chunk_pages_numbered fuel pre chunk_size overlap 0) as (_ & _ & Hc).
  rewrite E1 in Hc. simpl in Hc. specialize (Hc i1 eq_refl).
  rewrite Z.add_0_l in Hc. subst i1.
  destruct (page_chunks_fuel p chunk_size overlap (Py.len before) fuel Hs Hp)
    as (i2 & E2).
  destruct (chunk_pages_terminates fuel post chunk_size overlap i2 Hs Hpost)
    as (after & i3 & E3).
  exists before, after. unfold chunk_text.
  rewrite (chunk_pages_app _ _ _ _ _ _ _ _ E1), E1.
  cbn [chunk_pages]. rewrite E2. cbn [fst snd]. rewrite E3. done.
Qed.

Lemma chunk_pages_fuel_mono fuel fuel' pages chunk_size overlap idx l idx' :
  chunk_pages fuel pages chunk_size overlap idx = (l, Some idx') ->
  (fuel <= fuel')%nat ->
  chunk_pages fuel' pages chunk_size overlap idx = (l, Some idx').
Proof.
  intros E Hf. revert idx l idx' E.
  induction pages as [|p rest IH]; intros idx l idx' E; [done |].
  cbn [chunk_pages] in *.
  destruct (chunk_page fuel _ _ _ _ 0 idx) as [l1 [i1|]] eqn:E1;
    cbn [fst snd] in E; [| discriminate].
  rewrite (chunk_page_fuel_mono _ _ _ _ _ _ _ _ _ _ E1 Hf). cbn [fst snd].
  destruct (chunk_pages fuel rest chunk_size overlap i1) as [l2 r2] eqn:E2.
  cbn [fst snd] in E. injection E as <- ->.
  by rewrite (IH _ _ _ E2).
Qed.

Lemma page_chunks_windows p chunk_size overlap idx :
  0 < chunk_size - overlap ->
  exists idx',
    windows (Py.split (pi_text p)) (pi_page p) chunk_size overlap 0 idx
      (page_chunks p chunk_size overlap idx) idx'.
Proof.
  intros Hs.
  destruct (page_chunks_fuel p chunk_size overlap idx
              (S (length (Py.split (pi_text p)))) Hs) as (idx' & E); [lia |].
  exists idx'. by apply chunk_page_windows in E.
Qed.

(** ** Properties of the chunker *)

(** C2. For a page with n > 0 words and 0 < overlap < chunk_size, the
    chunks that chunk_text emits for the page (the segment of its result
    that follows [before], the chunks of the earlier pages) have ranges
    inside [0, n) that start at 0, leave no gap between one range and the
    next, contain every word position of the page, and end at n. *)
Theorem chunk_text_ranges_cover_page pre p post chunk_size overlap :
  0 < overlap < chunk_size ->
  0 < Py.len (Py.split (pi_text p)) ->
  exists before after,
    chunk_text (enough_fuel (pre ++ p :: post)) (pre ++ p :: post)
      chunk_size overlap
    = Some (before ++ page_chunks p chunk_size overlap (Py.len before) ++ after)
    /\ chunk_text (enough_fuel (pre ++ p :: post)) pre chunk_size overlap
       = Some before
    /\ let n := Py.len (Py.split (pi_text p)) in
       let l := page_chunks p chunk_size overlap (Py.len before) in
       (forall k, 0 <= k < n ->
          exists c, c ∈ l /\ word_start c <= k < word_end c)
       /\ (forall c, c ∈ l -> 0 <= word_start c < word_end c /\ word_end c <= n)
       /\ (exists c, l !! 0%nat = Some c /\ word_start c = 0)
       /\ (forall (i : nat) a b, l !! i = Some a -> l !! S i = Some b ->
             word_start a < word_start b <= word_end a)
       /\ (exists c, last l = Some c /\ word_end c = n).
Proof.
  intros Hp Hn.
  destruct (chunk_text_segment pre p post chunk_size overlap) as
    (before & after & E & Epre); [lia |].
  exists before, after. split; [exact E |]. split; [exact Epre |]. cbn zeta.
  destruct (page_chunks_windows p chunk_size overlap (Py.len before))
    as (idx' & HW); [lia |].
  split; [| split; [| split; [| split]]].
  - intros k Hk. eapply windows_cover; [exact HW | lia | lia].
  - intros c [i Hi]%list_elem_of_lookup.
    destruct (windows_lookup _ _ _ _ _ _ _ _ i c HW Hi) as [-> Hlt].
    simpl. nia.
  - pose proof (windows_nonempty _ _ _ _ _ _ _ _ HW Hn) as Hne.
    destruct (page_chunks p chunk_size overlap (Py.len before)) as [|c l] eqn:El;
      [done |].
    exists c. split; [done |].
    destruct (windows_lookup _ _ _ _ _ _ _ _ 0%nat c HW eq_refl) as [-> _].
    simpl. lia.
  - intros i a b Ha Hb.
    destruct (windows_adjacent _ _ _ _ _ _ _ _ i a b HW Ha Hb)
      as (He & _ & Hs & _). lia.
  - pose proof (windows_nonempty _ _ _ _ _ _ _ _ HW Hn) as Hne.
    destruct (last (page_chunks p chunk_size overlap (Py.len before)))
      as [c|] eqn:El; [| by apply last_None in El].
    exists c. split; [done |].
    eapply windows_last; [| exact HW | exact El]. lia.
Qed.

Lemma chunk_text_ranges_cover_page_witness :
  exists before after,
    chunk_text 8 [PageInfo 1 "a b"; PageInfo 2 "a b c d e f g"] 3 1
    = Some (before ++ page_chunks (PageInfo 2 "a b c d e f g") 3 1
                        (Py.len before) ++ after)
    /\ exists c, last (page_chunks (PageInfo 2 "a b c d e f g") 3 1
                         (Py.len before)) = Some c
                 /\ word_end c = 7.
Proof.
  destruct (chunk_text_ranges_cover_page
              [PageInfo 1 "a b"] (PageInfo 2 "a b c d e f g") [] 3 1)
    as (before & after & E & _ & _ & _ & _ & _ & Hlast);
    [lia | vm_compute; reflexivity |].
  exists before, after. split; [exact E | exact Hlast].
Defined.

(** C5. For every page sequence and every pair of parameters, whatever
    the bound, the chunks appended by chunk_text carry the counters
    0, 1, 2, ... in order over the whole document (the counter is not
    reset at a page boundary, also after a page without words), each
    chunk_id is p<page>_c<chunk_index> built from the chunk's own fields,
    and the list that chunk_text returns is that list of appended chunks. *)
Theorem chunk_text_global_index fuel pages chunk_size overlap :
  numbered_from 0 (chunk_text_emitted fuel pages chunk_size overlap)
  /\ Forall well_named (chunk_text_emitted fuel pages chunk_size overlap)
  /\ (chunk_text fuel pages chunk_size overlap = None
      \/ chunk_text fuel pages chunk_size overlap
         = Some (chunk_text_emitted fuel pages chunk_size overlap)).
Proof.
  unfold chunk_text_emitted, chunk_text.
  destruct (chunk_pages_numbered fuel pages chunk_size overlap 0) as (Hn & Hw & _).
  split; [exact Hn |]. split; [exact Hw |].
  destruct (chunk_pages fuel pages chunk_size overlap 0).2; [by right | by left].
Qed.

(** C6, as the code has it. For 0 < overlap < chunk_size, two consecutive
    ranges of a page have exactly overlap words in common; this holds for
    every consecutive pair, the pair that ends in the page's final range
    included. *)
Theorem chunk_text_consecutive_overlap pre p post chunk_size overlap :
  0 < overlap < chunk_size ->
  exists before after,
    chunk_text (enough_fuel (pre ++ p :: post)) (pre ++ p :: post)
      chunk_size overlap
    = Some (before ++ page_chunks p chunk_size overlap (Py.len before) ++ after)
    /\ chunk_text (enough_fuel (pre ++ p :: post)) pre chunk_size overlap
       = Some before
    /\ forall (i : nat) a b,
         page_chunks p chunk_size overlap (Py.len before) !! i = Some a ->
         page_chunks p chunk_size overlap (Py.len before) !! S i = Some b ->
         range_overlap a b = overlap.
Proof.
  intros Hp.
  destruct (chunk_text_segment pre p post chunk_size overlap) as
    (before & after & E & Epre); [lia |].
  exists before, after. split; [exact E |]. split; [exact Epre |].
  destruct (page_chunks_windows p chunk_size overlap (Py.len before))
    as (idx' & HW); [lia |].
  intros i a b Ha Hb.
  destruct (windows_adjacent _ _ _ _ _ _ _ _ i a b HW Ha Hb)
    as (He & Hlt & Hs & _).
  destruct (windows_lookup _ _ _ _ _ _ _ _ (S i) b HW Hb) as [Eb _].
  assert (Hbe : word_end b
                = Z.min (word_start b + chunk_size)
                    (Py.len (Py.split (pi_text p)))).
  { rewrite Eb. simpl. done. }
  unfold range_overlap. lia.
Qed.

Lemma chunk_text_consecutive_overlap_witness :
  exists before after,
    chunk_text 11 [PageInfo 1 "a b c d e f g h i j"] 4 1
    = Some (before ++ page_chunks (PageInfo 1 "a b c d e f g h i j") 4 1
                        (Py.len before) ++ after).
Proof.
  destruct (chunk_text_consecutive_overlap
              [] (PageInfo 1 "a b c d e f g h i j") [] 4 1)
    as (before & after & E & _); [lia |].
  exists before, after. exact E.
Defined.

(** C6 as stated fails: on a page of ten words with chunk_size = 4 and
    overlap = 1 the ranges are [0,4), [3,7), [6,10); the first two, neither
    of which is the final one, share 1 word and not chunk_size - overlap = 3. *)
Lemma consecutive_overlap_is_not_stride :
  ~ (forall p chunk_size overlap idx (i : nat) a b,
       0 < overlap < chunk_size ->
       page_chunks p chunk_size overlap idx !! i = Some a ->
       page_chunks p chunk_size overlap idx !! S i = Some b ->
       (S (S i) < length (page_chunks p chunk_size overlap idx))%nat ->
       range_overlap a b = chunk_size - overlap).
Proof.
  intros H.
  specialize (H (PageInfo 1 "a b c d e f g h i j") 4 1 0 0%nat
                (make_chunk (Py.split "a b c d e f g h i j") 1 0 0 4)
                (make_chunk (Py.split "a b c d e f g h i j") 1 1 3 7)).
  assert (C : range_overlap
                (make_chunk (Py.split "a b c d e f g h i j") 1 0 0 4)
                (make_chunk (Py.split "a b c d e f g h i j") 1 1 3 7) = 3).
  { apply H; [lia | vm_compute; reflexivity | vm_compute; reflexivity
             | vm_compute; lia]. }
  vm_compute in C. discriminate C.
Qed.

(** C7. For 0 < overlap < chunk_size, of two consecutive chunks of a page
    the second starts exactly chunk_size - overlap words after the first;
    the code makes no exception for the last chunk of a page. *)
Theorem chunk_text_stride pre p post chunk_size overlap :
  0 < overlap < chunk_size ->
  exists before after,
    chunk_text (enough_fuel (pre ++ p :: post)) (pre ++ p :: post)
      chunk_size overlap
    = Some (before ++ page_chunks p chunk_size overlap (Py.len before) ++ after)
    /\ chunk_text (enough_fuel (pre ++ p :: post)) pre chunk_size overlap
       = Some before
    /\ forall (i : nat) a b,
         page_chunks p chunk_size overlap (Py.len before) !! i = Some a ->
         page_chunks p chunk_size overlap (Py.len before) !! S i = Some b ->
         word_start b = word_start a + (chunk_size - overlap).
Proof.
  intros Hp.
  destruct (chunk_text_segment pre p post chunk_size overlap) as
    (before & after & E & Epre); [lia |].
  exists before, after. split; [exact E |]. split; [exact Epre |].
  destruct (page_chunks_windows p chunk_size overlap (Py.len before))
    as (idx' & HW); [lia |].
  intros i a b Ha Hb.
  by destruct (windows_adjacent _ _ _ _ _ _ _ _ i a b HW Ha Hb) as (_ & _ & Hs & _).
Qed.

Lemma chunk_text_stride_witness :
  exists before after,
    chunk_text 8 [PageInfo 1 "a b"; PageInfo 2 "a b c d e f g"] 3 1
    = Some (before ++ page_chunks (PageInfo 2 "a b c d e f g") 3 1
                        (Py.len before) ++ after).
Proof.
  destruct (chunk_text_stride
              [PageInfo 1 "a b"] (PageInfo 2 "a b c d e f g") [] 3 1)
    as (before & after & E & _); [lia |].
  exists before, after. exact E.
Defined.

(** ** Words, [split] and [join] *)

Lemma split_words s : Forall is_word (Py.split s).
Proof.
  induction s as [|c s IH]; simpl; [done |].
  destruct (Py.isspace c) eqn:Ec; [done |].
  destruct (Py.continues_word s).
  - destruct IH as [|w ws [Hne Hw] Hws]; simpl.
    + by repeat constructor.
    + constructor; [| done]. by split.
  - constructor; [| done]. by split.
Qed.

Lemma split_word_then_space w rest :
  is_word w -> Py.split (w +:+ String " " rest) = w :: Py.split rest.
Proof.
  intros [Hne Hw]. induction w as [|c w IH]; [done |].
  destruct Hw as [Hc Hw]. simpl. rewrite Hc.
  destruct w as [|c' w].
  - simpl. done.
  - simpl in Hw. destruct Hw as [Hc' Hw]. simpl Py.continues_word.
    rewrite Hc'. simpl negb. cbv iota.
    change (String c' (w +:+ String " " rest))
      with (String c' w +:+ String " " rest).
    rewrite IH; [done | done | by split].
Qed.

Lemma split_word w : is_word w -> Py.split w = [w].
Proof.
  intros [Hne Hw]. induction w as [|c w IH]; [done |].
  destruct Hw as [Hc Hw]. simpl. rewrite Hc.
  destruct w as [|c' w]; [done |].
  simpl in Hw. destruct Hw as [Hc' Hw]. simpl Py.continues_word.
  rewrite Hc'. simpl negb. cbv iota.
  rewrite IH; [done | done | by split].
Qed.

(** Splitting what [" ".join] built from words gives the words back. *)
Lemma split_join ws : Forall is_word ws -> Py.split (Py.join " " ws) = ws.
Proof.
  induction 1 as [|w ws Hw Hws IH]; [done |].
  destruct ws as [|w' ws]; simpl.
  - by apply split_word.
  - change (Py.split (w +:+ String " " (Py.join " " (w' :: ws))) = w :: w' :: ws).
    rewrite split_word_then_space by done. by rewrite IH.
Qed.

Lemma slice_range {A : Type} (l : list A) (i j : Z) :
  0 <= i <= j -> j <= Py.len l ->
  Py.slice l i j = take (Z.to_nat (j - i)) (drop (Z.to_nat i) l)
  /\ Py.len (Py.slice l i j) = j - i.
Proof.
  intros Hi Hj. unfold Py.slice, Py.slice_bound.
  destruct (Z.ltb_spec i 0); [lia |]. destruct (Z.ltb_spec j 0); [lia |].
  rewrite !Z.min_l by lia. split; [done |].
  unfold Py.len in *. rewrite length_take, length_drop. lia.
Qed.

Lemma slice_sublist {A : Type} (P : A -> Prop) (l : list A) (i j : Z) :
  Forall P l -> Forall P (Py.slice l i j).
Proof. intros H. unfold Py.slice. by apply Forall_take, Forall_drop. Qed.

Lemma make_chunk_contents_ok words page_num idx start chunk_size :
  Forall is_word words -> 0 <= chunk_size -> 0 <= start < Py.len words ->
  chunk_contents_ok words chunk_size
    (make_chunk words page_num idx start
       (Z.min (start + chunk_size) (Py.len words))).
Proof.
  intros Hw Hcs Hs. unfold chunk_contents_ok. simpl.
  destruct (slice_range words start (Z.min (start + chunk_size) (Py.len words)))
    as [Hr Hl]; [lia | lia |].
  rewrite split_join by (by apply slice_sublist).
  rewrite <- Hr. repeat split; try done; lia.
Qed.

(** A loop that is left never had a negative cursor. *)
Lemma windows_spin words page_num chunk_size overlap start idx l idx' :
  windows words page_num chunk_size overlap start idx l idx' ->
  chunk_size - overlap <= 0 -> start <= 0 -> 0 < Py.len words ->
  start + chunk_size < Py.len words -> False.
Proof.
  induction 1 as [start idx Hge | start idx Hlt Hend
                 | start idx l idx' Hlt Hend _ IH]; intros Hs H0 Hn Hc.
  - lia.
  - lia.
  - apply IH; lia.
Qed.

Lemma windows_start_nonneg words page_num chunk_size overlap idx l idx' c :
  windows words page_num chunk_size overlap 0 idx l idx' ->
  c ∈ l -> 0 <= word_start c.
Proof.
  intros HW [i Hi]%list_elem_of_lookup.
  destruct (Z.lt_ge_cases 0 (chunk_size - overlap)) as [Hs|Hs].
  - destruct (windows_lookup _ _ _ _ _ _ _ _ i c HW Hi) as [-> _]. simpl. nia.
  - inversion HW as [ | | s j l' j' Hlt Hend HW']; subst.
    + done.
    + destruct i; [| done]. injection Hi as <-. done.
    + exfalso. eapply windows_spin; [exact HW' | lia..].
Qed.

Lemma chunk_pages_contents fuel pages chunk_size overlap idx l idx' :
  0 <= chunk_size ->
  chunk_pages fuel pages chunk_size overlap idx = (l, Some idx') ->
  Forall (fun c => exists p, p ∈ pages /\ page c = pi_page p
            /\ chunk_contents_ok (Py.split (pi_text p)) chunk_size c) l.
Proof.
  intros Hcs. revert idx l idx'.
  induction pages as [|p rest IH]; intros idx l idx' E.
  - injection E as <- _. done.
  - cbn [chunk_pages] in E.
    destruct (chunk_page fuel _ _ _ _ 0 idx) as [l1 [i1|]] eqn:E1;
      cbn [fst snd] in E; [| discriminate].
    destruct (chunk_pages fuel rest chunk_size overlap i1) as [l2 r2] eqn:E2.
    cbn [fst snd] in E. injection E as <- ->.
    apply chunk_page_windows in E1.
    apply Forall_app. split.
    + apply Forall_forall. intros c Hc.
      pose proof (windows_start_nonneg _ _ _ _ _ _ _ _ E1 Hc) as H0.
      apply list_elem_of_lookup in Hc as [i Hi].
      destruct (windows_lookup _ _ _ _ _ _ _ _ i c E1 Hi) as [-> Hlt].
      exists p. split; [apply list_elem_of_here |]. split; [done |].
      apply make_chunk_contents_ok; [apply split_words | done |].
      simpl in H0. lia.
    + eapply Forall_impl; [exact (IH _ _ _ E2) |].
      intros c (q & Hq & Hc). exists q.
      split; [by apply list_elem_of_further | done].
Qed.

(** The same for what has been appended when the loop is not left,
    provided the cursor does not move backwards. *)
Lemma chunk_page_contents_emitted fuel words page_num chunk_size overlap
    start idx :
  Forall is_word words -> 0 <= chunk_size -> 0 <= chunk_size - overlap ->
  0 <= start ->
  Forall (fun c => page c = page_num /\ chunk_contents_ok words chunk_size c)
    (chunk_page fuel words page_num chunk_size overlap start idx).1.
Proof.
  intros Hw Hcs Hs. revert start idx.
  induction fuel as [|fuel IH]; intros start idx H0; simpl; [done |].
  destruct (Z.ltb_spec start (Py.len words)); [| done].
  destruct (_ =? Py.len words); simpl.
  - constructor; [| done]. split; [done |].
    by apply make_chunk_contents_ok.
  - constructor; [| apply IH; lia]. split; [done |].
    by apply make_chunk_contents_ok.
Qed.

Lemma chunk_pages_contents_emitted fuel pages chunk_size overlap idx :
  0 <= chunk_size -> 0 <= chunk_size - overlap ->
  Forall (fun c => exists p, p ∈ pages /\ page c = pi_page p
            /\ chunk_contents_ok (Py.split (pi_text p)) chunk_size c)
    (chunk_pages fuel pages chunk_size overlap idx).1.
Proof.
  intros Hcs Hs. revert idx.
  induction pages as [|p rest IH]; intros idx; [done |].
  cbn [chunk_pages].
  pose proof (chunk_page_contents_emitted fuel (Py.split (pi_text p))
                (pi_page p) chunk_size overlap 0 idx (split_words _) Hcs Hs
                (Z.le_refl 0)) as Hp.
  assert (Hp' : Forall (fun c => exists q, q ∈ p :: rest /\ page c = pi_page q
                  /\ chunk_contents_ok (Py.split (pi_text q)) chunk_size c)
                  (chunk_page fuel (Py.split (pi_text p)) (pi_page p)
                     chunk_size overlap 0 idx).1).
  { eapply Forall_impl; [exact Hp |]. intros c [Hc Hok].
    exists p. split; [apply list_elem_of_here | done]. }
  destruct (chunk_page fuel _ _ _ _ 0 idx) as [l1 [i1|]]; cbn [fst snd] in *;
    [| done].
  apply Forall_app. split; [done |].
  eapply Forall_impl; [exact (IH i1) |].
  intros c (q & Hq & Hc). exists q.
  split; [by apply list_elem_of_further | done].
Qed.

(** C8, as the code has it. With a chunk_size that is not negative,
    whatever the overlap, every chunk that chunk_text returns belongs to a
    page of the input, has word_end = min(word_start + chunk_size, n) for
    that page's word count n, has as text the page's words
    [word_start, word_end) joined by single spaces, and splitting that
    text gives back exactly that slice, of length word_end - word_start.
    When overlap <= chunk_size the same holds for everything appended,
    also within a bound that is too small for the call to return. *)
Theorem chunk_text_contents fuel pages chunk_size overlap :
  0 <= chunk_size ->
  (forall chunks,
     chunk_text fuel pages chunk_size overlap = Some chunks ->
     Forall (fun c => exists p, p ∈ pages /\ page c = pi_page p
               /\ chunk_contents_ok (Py.split (pi_text p)) chunk_size c)
       chunks)
  /\ (0 <= chunk_size - overlap ->
      Forall (fun c => exists p, p ∈ pages /\ page c = pi_page p
                /\ chunk_contents_ok (Py.split (pi_text p)) chunk_size c)
        (chunk_text_emitted fuel pages chunk_size overlap)).
Proof.
  intros Hcs. split.
  - intros chunks. unfold chunk_text.
    destruct (chunk_pages fuel pages chunk_size overlap 0) as [l [i|]] eqn:E;
      cbn [fst snd]; [| discriminate].
    intros [= <-]. by eapply chunk_pages_contents.
  - intros Hs. by apply chunk_pages_contents_emitted.
Qed.

Lemma chunk_text_contents_witness :
  Forall (fun c => exists p,
            p ∈ [PageInfo 1 "a b c d e"; PageInfo 2 "f  g"]
            /\ page c = pi_page p
            /\ chunk_contents_ok (Py.split (pi_text p)) 3 c)
    (chunk_text_emitted 6 [PageInfo 1 "a b c d e"; PageInfo 2 "f  g"] 3 1).
Proof.
  destruct (chunk_text_contents 6
              [PageInfo 1 "a b c d e"; PageInfo 2 "f  g"] 3 1) as [H _];
    [lia |].
  apply H. vm_compute. reflexivity.
Defined.

(** C8 as stated fails for a negative chunk_size, which nothing rejects:
    with chunk_size = -1 and overlap = -2 the page "a b" gives a first
    chunk with word_start = 0 and word_end = min(0 - 1, 2) = -1 whose text
    is words[0:-1] = "a": one word, where word_end - word_start is -1. *)
Lemma negative_chunk_size_breaks_contents :
  chunk_text 3 [PageInfo 1 "a b"] (-1) (-2)
  = Some (chunk_text_emitted 3 [PageInfo 1 "a b"] (-1) (-2))
  /\ (fun c => (word_start c, word_end c, text c, Py.len (Py.split (text c))))
       <$> chunk_text_emitted 3 [PageInfo 1 "a b"] (-1) (-2)
     = [(0, -1, "a"%string, 1); (1, 0, ""%string, 0)]
  /\ ~ (forall fuel pages chunk_size overlap chunks,
         chunk_text fuel pages chunk_size overlap = Some chunks ->
         Forall (fun c => exists p, p ∈ pages /\ page c = pi_page p
                   /\ chunk_contents_ok (Py.split (pi_text p)) chunk_size c)
           chunks).
Proof.
  split; [vm_compute; reflexivity |]. split; [vm_compute; reflexivity |].
  intros H.
  assert (E : chunk_text 3 [PageInfo 1 "a b"] (-1) (-2)
              = Some (chunk_text_emitted 3 [PageInfo 1 "a b"] (-1) (-2)))
    by (vm_compute; reflexivity).
  specialize (H _ _ _ _ _ E).
  apply Forall_cons in H as [(p & _ & _ & Hok) _].
  destruct Hok as ([_ Hle] & _). vm_compute in Hle. by apply Hle.
Qed.

(** ** Termination *)

(** C9. With chunk_size - overlap > 0, chunk_text returns for every page
    list: the bound [enough_fuel pages] and every larger one give the same
    returned list.  For each page the loop is left within one more test
    than the page has words, it appends at most one chunk per word, and
    the cursor recorded in consecutive chunks strictly increases. *)
Theorem chunk_text_terminates pages chunk_size overlap :
  0 < chunk_size - overlap ->
  (exists chunks, forall fuel, (enough_fuel pages <= fuel)%nat ->
     chunk_text fuel pages chunk_size overlap = Some chunks)
  /\ forall p idx,
       let words := Py.split (pi_text p) in
       let l := page_chunks p chunk_size overlap idx in
       (forall fuel, (length words < fuel)%nat ->
          chunk_page fuel words (pi_page p) chunk_size overlap 0 idx
          = (l, Some (idx + Py.len l)))
       /\ (length l <= length words)%nat
       /\ forall (i : nat) a b, l !! i = Some a -> l !! S i = Some b ->
            word_start a < word_start b.
Proof.
  intros Hs. split.
  - destruct (chunk_pages_terminates (enough_fuel pages) pages
                chunk_size overlap 0 Hs) as (l & idx' & E).
    { apply Forall_forall. intros q Hq. by apply enough_fuel_page. }
    exists l. intros fuel Hf. unfold chunk_text.
    by rewrite (chunk_pages_fuel_mono _ _ _ _ _ _ _ _ E Hf).
  - intros p idx. cbn zeta.
    destruct (page_chunks_windows p chunk_size overlap idx Hs) as (idx' & HW).
    split; [| split].
    + intros fuel Hf.
      destruct (page_chunks_fuel p chunk_size overlap idx fuel Hs Hf)
        as (idx'' & E).
      rewrite E. f_equal. f_equal.
      apply chunk_page_windows in E. by apply windows_counter in E.
    + destruct (page_chunks p chunk_size overlap idx) as [|c l] eqn:El
        using rev_ind; [simpl; lia |].
      clear IHl.
      assert (Hi : (l ++ [c]) !! length l = Some c)
        by (by rewrite lookup_app_r, Nat.sub_diag).
      destruct (windows_lookup _ _ _ _ _ _ _ _ _ _ HW Hi) as [_ Hlt].
      rewrite length_app. simpl. unfold Py.len in Hlt. nia.
    + intros i a b Ha Hb.
      destruct (windows_adjacent _ _ _ _ _ _ _ _ i a b HW Ha Hb)
        as (_ & _ & Hst & _). lia.
Qed.

Lemma chunk_text_terminates_witness :
  exists chunks,
    chunk_text (enough_fuel [PageInfo 1 "a b c d e"; PageInfo 2 "f g"])
      [PageInfo 1 "a b c d e"; PageInfo 2 "f g"] 2 1 = Some chunks
    /\ length chunks = 5%nat.
Proof.
  destruct (chunk_text_terminates [PageInfo 1 "a b c d e"; PageInfo 2 "f g"] 2 1)
    as [[chunks H] _]; [lia |].
  exists chunks. split; [apply H; lia |].
  specialize (H (enough_fuel [PageInfo 1 "a b c d e"; PageInfo 2 "f g"])
                (Nat.le_refl _)).
  vm_compute in H. injection H as <-. reflexivity.
Defined.

(** With a stride that is not positive the loop is not left on a page
    that has more than [chunk_size] words, whatever the bound. *)
Lemma chunk_text_spins fuel p rest chunk_size overlap :
  chunk_size - overlap <= 0 ->
  chunk_size < Py.len (Py.split (pi_text p)) ->
  0 < Py.len (Py.split (pi_text p)) ->
  chunk_text fuel (p :: rest) chunk_size overlap = None.
Proof.
  intros Hs Hc Hn. unfold chunk_text. cbn [chunk_pages].
  destruct (chunk_page_spins (Py.split (pi_text p)) (pi_page p) chunk_size
              overlap fuel 0 0 Hs) as [E _]; [lia | done | done |].
  by rewrite E.
Qed.

(** With chunk_size = 2 and overlap = 3, which nothing rejects, the page
    "a b c" makes the cursor step backwards: the second chunk appended has
    word_start = -1, word_end = 1 and an empty text, and the call never
    returns.  What C8 says of appended chunks therefore needs
    overlap <= chunk_size beside chunk_size >= 0. *)
Example negative_stride_appends_outside_page :
  (fun c => (word_start c, word_end c, text c))
    <$> chunk_text_emitted 2 [PageInfo 1 "a b c"] 2 3
  = [(0, 2, "a b"%string); (-1, 1, EmptyString)]
  /\ forall fuel, chunk_text fuel [PageInfo 1 "a b c"] 2 3 = None.
Proof.
  split; [vm_compute; reflexivity |]. intros fuel.
  apply chunk_text_spins; vm_compute; (reflexivity || discriminate).
Qed.

(** ** Chunk identifiers are pairwise distinct *)

Lemma pretty_N_go_no_underscore x s :
  no_underscore s -> no_underscore (pretty_N_go x s).
Proof.
  revert s. induction (N.lt_wf_0 x) as [x _ IH]; intros s Hs.
  assert (x = 0 \/ 0 < x)%N as [->|Hx] by lia.
  - by rewrite pretty_N_go_0.
  - rewrite pretty_N_go_step by done. apply IH.
    + by apply N.div_lt.
    + split; [| done]. unfold pretty_N_char. by repeat case_match.
Qed.

Lemma str_no_underscore z : no_underscore (Py.str z).
Proof.
  assert (HN : forall x : N, no_underscore (pretty x)).
  { intros x. unfold pretty, pretty_N. case_decide.
    - simpl. split; [done | done].
    - by apply pretty_N_go_no_underscore. }
  unfold Py.str, pretty, pretty_Z. destruct z as [|x|x].
  - simpl. split; [done | done].
  - apply HN.
  - simpl. split; [done |]. apply HN.
Qed.

Lemma underscore_split s1 s2 t1 t2 :
  no_underscore s1 -> no_underscore s2 ->
  s1 +:+ String "_" t1 = s2 +:+ String "_" t2 -> s1 = s2 /\ t1 = t2.
Proof.
  revert s2. induction s1 as [|c s1 IH]; intros [|c' s2] H1 H2 E; simpl in *.
  - by injection E.
  - injection E as <- _. by destruct H2.
  - injection E as -> _. by destruct H1.
  - injection E as -> E. destruct H1 as [_ H1], H2 as [_ H2].
    destruct (IH s2 H1 H2 E) as [-> ->]. done.
Qed.

Lemma id_of_inj page1 idx1 page2 idx2 :
  id_of page1 idx1 = id_of page2 idx2 -> page1 = page2 /\ idx1 = idx2.
Proof.
  unfold id_of. intros E. simpl in E. injection E as E.
  change ("_c" +:+ Py.str idx1) with (String "_" (String "c" (Py.str idx1))) in E.
  change ("_c" +:+ Py.str idx2) with (String "_" (String "c" (Py.str idx2))) in E.
  apply underscore_split in E as [Ep Ei]; [| apply str_no_underscore..].
  injection Ei as Ei.
  split; [by apply (inj pretty) in Ep | by apply (inj pretty) in Ei].
Qed.

Lemma numbered_ids_NoDup idx l :
  numbered_from idx l -> Forall well_named l -> NoDup (chunk_id <$> l).
Proof.
  intros Hn Hw. apply NoDup_alt. intros i j x Hi Hj.
  rewrite list_lookup_fmap in Hi, Hj.
  destruct (l !! i) as [a|] eqn:Ea; [| done].
  destruct (l !! j) as [b|] eqn:Eb; [| done].
  simpl in Hi, Hj. injection Hi as <-. injection Hj as Hj.
  pose proof (numbered_from_lookup _ _ _ _ Hn Ea) as Hia.
  pose proof (numbered_from_lookup _ _ _ _ Hn Eb) as Hib.
  rewrite Forall_forall in Hw.
  rewrite (Hw a), (Hw b) in Hj by (by eapply list_elem_of_lookup_2).
  apply id_of_inj in Hj as [_ Hj]. lia.
Qed.

Lemma chunk_text_returns_emitted fuel pages chunk_size overlap chunks :
  chunk_text fuel pages chunk_size overlap = Some chunks ->
  chunk_text_emitted fuel pages chunk_size overlap = chunks.
Proof.
  unfold chunk_text, chunk_text_emitted.
  destruct (chunk_pages fuel pages chunk_size overlap 0).2; [| done].
  by intros [= <-].
Qed.

(** The identifiers of the chunks that [chunk_text] appends are distinct. *)
Lemma chunk_text_ids_NoDup fuel pages chunk_size overlap :
  NoDup (chunk_id <$> chunk_text_emitted fuel pages chunk_size overlap).
Proof.
  destruct (chunk_pages_numbered fuel pages chunk_size overlap 0) as (Hn & Hw & _).
  by eapply numbered_ids_NoDup.
Qed.

(** ** Batched upserts *)

Section Batches.
Context {vec : Type} (embed : string -> string -> vec).

Local Abbreviation collection := (gmap string (@stored vec)).

Lemma upsert_chunks model_name source_name chunks col :
  upsert embed model_name col (chunk_id <$> chunks) (text <$> chunks)
    (metadata_of source_name <$> chunks)
  = upsert_all embed chunks model_name source_name col.
Proof.
  revert col. induction chunks as [|c chunks IH]; intros col; [done |].
  simpl. by rewrite IH.
Qed.

Lemma slice_fmap {A B : Type} (f : A -> B) (l : list A) (i j : Z) :
  Py.slice (f <$> l) i j = f <$> Py.slice l i j.
Proof.
  unfold Py.slice, Py.len. by rewrite length_fmap, fmap_take, fmap_drop.
Qed.

Lemma slice_batch {A : Type} (l : list A) (k : nat) (batch : Z) :
  0 < batch ->
  Py.slice l (Z.of_nat k * batch) (Z.of_nat k * batch + batch)
  = take (Z.to_nat batch) (drop (k * Z.to_nat batch) l).
Proof.
  intros Hb. remember (Z.to_nat batch) as b eqn:Eb.
  assert (batch = Z.of_nat b) as -> by lia. clear Eb.
  unfold Py.slice, Py.slice_bound, Py.len.
  destruct (Z.ltb_spec (Z.of_nat k * Z.of_nat b) 0); [nia |].
  destruct (Z.ltb_spec (Z.of_nat k * Z.of_nat b + Z.of_nat b) 0); [nia |].
  rewrite <- Nat2Z.inj_mul, <- Nat2Z.inj_add, <- !Nat2Z.inj_min,
    <- Nat2Z.inj_sub, !Nat2Z.id by lia.
  destruct (Nat.le_gt_cases (k * b) (length l)) as [Hin|Hout].
  - rewrite (Nat.min_l (k * b)) by lia.
    destruct (Nat.le_gt_cases (k * b + b) (length l)) as [Hin'|Hout'].
    + rewrite Nat.min_l by lia. f_equal. lia.
    + rewrite Nat.min_r by lia.
      rewrite !take_ge; [done | rewrite length_drop; lia
                        | rewrite length_drop; lia].
  - rewrite !Nat.min_r by lia. rewrite Nat.sub_diag. simpl.
    rewrite (drop_ge l (k * b)) by lia. by destruct b.
Qed.

Lemma upsert_all_app chunks1 chunks2 model_name source_name col :
  upsert_all embed (chunks1 ++ chunks2) model_name source_name col
  = upsert_all embed chunks2 model_name source_name
      (upsert_all embed chunks1 model_name source_name col).
Proof. unfold upsert_all. by rewrite foldl_app. Qed.

(** After [k] batches the collection holds the first [k * batch] chunks. *)
Lemma upsert_batches_prefix chunks model_name source_name col batch (k : nat) :
  0 < batch ->
  upsert_batches embed model_name batch (chunk_id <$> chunks) (text <$> chunks)
    (metadata_of source_name <$> chunks) col
    ((fun j : nat => 0 + Z.of_nat j * batch) <$> seq 0 k)
  = upsert_all embed (take (k * Z.to_nat batch) chunks) model_name source_name col.
Proof.
  intros Hb. unfold upsert_batches. induction k as [|k IH]; [done |].
  rewrite seq_S, fmap_app, foldl_app, IH. cbn [foldl fmap list_fmap Nat.add].
  rewrite Z.add_0_l, !slice_fmap, upsert_chunks, slice_batch by done.
  rewrite <- upsert_all_app, take_take_drop.
  by replace (S k * Z.to_nat batch)%nat
    with (k * Z.to_nat batch + Z.to_nat batch)%nat by (simpl; lia).
Qed.

Lemma store_chunks_upsert_all chunks model_name source_name col :
  store_chunks embed chunks model_name source_name col
  = upsert_all embed chunks model_name source_name col.
Proof.
  unfold store_chunks, Py.range. rewrite upsert_batches_prefix by done.
  f_equal. apply take_ge. unfold Py.len.
  pose proof (Z.div_mod (Z.of_nat (length chunks) - 0 + 128 - 1) 128).
  pose proof (Z.mod_pos_bound (Z.of_nat (length chunks) - 0 + 128 - 1) 128).
  lia.
Qed.

(** ** Upsert by id *)

Lemma upsert_all_lookup chunks model_name source_name (col : collection) k :
  upsert_all embed chunks model_name source_name col !! k
  = match last_with_id k chunks with
    | Some c => Some (stored_of embed model_name source_name c)
    | None => col !! k
    end.
Proof.
  revert col. induction chunks as [|c rest IH]; intros col; [done |].
  simpl. rewrite IH. destruct (last_with_id k rest); [done |].
  case_decide as Hk.
  - subst k. by rewrite lookup_insert_eq.
  - by rewrite lookup_insert_ne.
Qed.

(** Upserting the same records again changes nothing. *)
Lemma upsert_all_idempotent chunks model_name source_name (col : collection) :
  upsert_all embed chunks model_name source_name
    (upsert_all embed chunks model_name source_name col)
  = upsert_all embed chunks model_name source_name col.
Proof.
  apply map_eq. intros k. rewrite !upsert_all_lookup.
  by destruct (last_with_id k chunks).
Qed.

Lemma upsert_all_dom chunks model_name source_name (col : collection) :
  dom (upsert_all embed chunks model_name source_name col)
  = dom col ∪ list_to_set (chunk_id <$> chunks).
Proof.
  revert col. induction chunks as [|c rest IH]; intros col; simpl.
  - by rewrite union_empty_r_L.
  - rewrite IH, dom_insert_L.
    rewrite (union_comm_L {[chunk_id c]} (dom col)).
    symmetry. apply (assoc_L (∪)).
Qed.

Lemma upsert_all_size chunks model_name source_name :
  NoDup (chunk_id <$> chunks) ->
  size (upsert_all embed chunks model_name source_name (∅ : collection))
  = length chunks.
Proof.
  intros Hnd. rewrite <- size_dom, upsert_all_dom, dom_empty_L, union_empty_l_L.
  rewrite size_list_to_set by done. by rewrite length_fmap.
Qed.

(** The id batches of the upsert loop, put end to end, are the ids. *)
Lemma batches_concat {A : Type} (l : list A) (batch : Z) :
  0 < batch ->
  mjoin ((fun i => Py.slice l i (i + batch)) <$> Py.range 0 (Py.len l) batch)
  = l.
Proof.
  intros Hb. unfold Py.range.
  assert (Hk : forall k : nat,
    mjoin ((fun i => Py.slice l i (i + batch))
             <$> ((fun j : nat => 0 + Z.of_nat j * batch) <$> seq 0 k))
    = take (k * Z.to_nat batch) l).
  { induction k as [|k IH]; [done |].
    rewrite seq_S, !fmap_app, join_app, IH.
    cbn [fmap list_fmap Nat.add mjoin list_join].
    rewrite Z.add_0_l, slice_batch, app_nil_r, take_take_drop by done.
    by replace (S k * Z.to_nat batch)%nat
      with (k * Z.to_nat batch + Z.to_nat batch)%nat by (simpl; lia). }
  rewrite Hk. apply take_ge. unfold Py.len.
  pose proof (Z.div_mod (Z.of_nat (length l) - 0 + batch - 1) batch).
  pose proof (Z.mod_pos_bound (Z.of_nat (length l) - 0 + batch - 1) batch).
  nia.
Qed.

(** C4. For every chunk list and every collection, the collection that
    embed_and_store leaves after its batches of 128 is the one that a
    single upsert of all ids, documents and metadatas leaves; the entry
    of the database is that collection, and the ids passed to the store
    batch after batch are the chunk ids, each once and in order. *)
Theorem embed_and_store_one_batch
    (db : gmap (string * string) collection) (chunks : list chunk)
    (db_dir collection_name model_name source_name : string) :
  let r := embed_and_store embed db chunks db_dir collection_name
             model_name source_name in
  let col := get_collection db db_dir collection_name in
  store_chunks embed chunks model_name source_name col
  = upsert embed model_name col (chunk_id <$> chunks) (text <$> chunks)
      (metadata_of source_name <$> chunks)
  /\ r.1.1 = <[(db_dir, collection_name) :=
                upsert embed model_name col (chunk_id <$> chunks)
                  (text <$> chunks) (metadata_of source_name <$> chunks)]> db
  /\ upserted_ids r.1.2 = chunk_id <$> chunks.
Proof.
  cbn zeta. rewrite store_chunks_upsert_all, upsert_chunks.
  split; [done |]. split.
  - unfold embed_and_store. cbn [fst]. by rewrite store_chunks_upsert_all.
  - unfold embed_and_store, upserted_ids. cbn [fst snd fmap list_fmap mjoin
      list_join app].
    rewrite <- list_fmap_compose.
    etrans; [| apply (batches_concat (chunk_id <$> chunks) 128); lia].
    unfold Py.len. by rewrite length_fmap.
Qed.

End Batches.

(** ** The entry point *)

Section MainProperties.
Context {vec : Type} (embed : string -> string -> vec).

Lemma main_missing_path fuel a (w : @world vec) :
  path_exists w (document a) = false ->
  main embed fuel a w
  = Run (SystemExit ("[ingest] ❌ File not found: " +:+ document a))
      [] (database w).
Proof.
  intros H. unfold document, pdf_path in *. unfold main. by rewrite H.
Qed.

Lemma main_reader_raises fuel a (w : @world vec) e :
  path_exists w (document a) = true -> pdf_reader w (document a) = inl e ->
  main embed fuel a w = Run (Uncaught e) [EvReadPdf (document a)] (database w).
Proof.
  intros H E. unfold document, pdf_path in *. unfold main, extract_text.
  by rewrite H, E.
Qed.

Lemma main_spinning fuel a (w : @world vec) raw_pages :
  path_exists w (document a) = true -> pdf_reader w (document a) = inr raw_pages ->
  chunk_text fuel (extract_pages 0 raw_pages) (a_chunk_size a) (a_overlap a)
  = None ->
  main embed fuel a w = Run Running [EvReadPdf (document a)] (database w).
Proof.
  intros H E C. unfold document, pdf_path in *. unfold main, extract_text.
  by rewrite H, E, C.
Qed.

Lemma main_finished fuel a (w : @world vec) raw_pages chunks :
  path_exists w (document a) = true -> pdf_reader w (document a) = inr raw_pages ->
  chunk_text fuel (extract_pages 0 raw_pages) (a_chunk_size a) (a_overlap a)
  = Some chunks ->
  main embed fuel a w
  = Run Finished
      (EvReadPdf (document a)
       :: (embed_and_store embed (database w) chunks (a_db_dir a)
             (a_collection a) (a_model a) (Py.path_name (pdf_path a))).1.2)
      (<[(a_db_dir a, a_collection a) :=
           upsert_all embed chunks (a_model a) (Py.path_name (pdf_path a))
             (target a (database w))]> (database w)).
Proof.
  intros H E C. unfold document, pdf_path in *. unfold main, extract_text.
  rewrite H, E, C. cbn [negb].
  f_equal. unfold embed_and_store. cbn [fst].
  by rewrite store_chunks_upsert_all.
Qed.

(** The four ways in which a run ends. *)
Lemma main_cases fuel a (w : @world vec) :
  (path_exists w (document a) = false)
  \/ (path_exists w (document a) = true
      /\ exists e, pdf_reader w (document a) = inl e)
  \/ (path_exists w (document a) = true
      /\ exists raw_pages, pdf_reader w (document a) = inr raw_pages
         /\ chunk_text fuel (extract_pages 0 raw_pages)
              (a_chunk_size a) (a_overlap a) = None)
  \/ (path_exists w (document a) = true
      /\ exists raw_pages chunks, pdf_reader w (document a) = inr raw_pages
         /\ chunk_text fuel (extract_pages 0 raw_pages)
              (a_chunk_size a) (a_overlap a) = Some chunks).
Proof.
  destruct (path_exists w (document a)); [| by left]. right.
  destruct (pdf_reader w (document a)) as [e|raw_pages]; [left; by eauto |].
  right.
  destruct (chunk_text fuel (extract_pages 0 raw_pages)
              (a_chunk_size a) (a_overlap a)) as [chunks|] eqn:C;
    [right | left]; by eauto 6.
Qed.



(** C3. Running main again with the same arguments, on the world that
    the first run left, ends as the first run did and leaves the
    database as the first run left it: the named collection has the same
    ids and the same number of records.  When the first run finishes,
    the chunk ids it upserts are pairwise distinct, the collection's ids
    are the ids it had before together with the chunk ids, and a
    collection that was empty before holds one record per chunk after
    the first run and after the second. *)
Theorem reingestion_idempotent fuel a (w : @world vec) :
  let r1 := main embed fuel a w in
  let r2 := main embed fuel a (after w r1) in
  r_outcome r2 = r_outcome r1
  /\ r_database r2 = r_database r1
  /\ dom (target a (r_database r2)) = dom (target a (r_database r1))
  /\ size (target a (r_database r2)) = size (target a (r_database r1))
  /\ (r_outcome r1 = Finished ->
      exists pages chunks,
        extract_text w (document a) = inr pages
        /\ chunk_text fuel pages (a_chunk_size a) (a_overlap a) = Some chunks
        /\ NoDup (chunk_id <$> chunks)
        /\ dom (target a (r_database r1))
           = dom (target a (database w)) ∪ list_to_set (chunk_id <$> chunks)
        /\ (target a (database w) = ∅ ->
            size (target a (r_database r1)) = length chunks
            /\ size (target a (r_database r2)) = length chunks)).
Proof.
  cbn zeta.
  assert (Hsame : forall r : @run vec,
    r_database r = database w -> after w r = w).
  { intros r Hr. unfold after. rewrite Hr. by destruct w. }
  destruct (main_cases fuel a w)
    as [H | [[H [e E]] | [[H (raw & E & C)] | [H (raw & chunks & E & C)]]]].
  - rewrite (main_missing_path _ _ w) by done.
    rewrite Hsame by done. rewrite main_missing_path by done. cbn. done.
  - rewrite (main_reader_raises _ _ w e) by done.
    rewrite Hsame by done. rewrite (main_reader_raises _ _ w e) by done.
    cbn. done.
  - rewrite (main_spinning _ _ w raw) by done.
    rewrite Hsame by done. rewrite (main_spinning _ _ w raw) by done.
    cbn. done.
  - rewrite (main_finished _ _ w raw chunks) by done.
    set (src := Py.path_name (pdf_path a)).
    set (col := target a (database w)).
    set (col1 := upsert_all embed chunks (a_model a) src col).
    rewrite (main_finished _ _ _ raw chunks) by done.
    cbn [r_outcome r_database after database].
    assert (Hcol : target a (<[(a_db_dir a, a_collection a) := col1]>
                               (database w)) = col1).
    { unfold target, get_collection. by rewrite lookup_insert_eq. }
    rewrite Hcol.
    assert (Hidem : upsert_all embed chunks (a_model a) src col1 = col1)
      by apply upsert_all_idempotent.
    fold src. rewrite Hidem, insert_insert_eq, Hcol.
    repeat split; try done.
    intros _. exists (extract_pages 0 raw), chunks.
    assert (Hnd : NoDup (chunk_id <$> chunks)).
    { pose proof (chunk_text_ids_NoDup fuel (extract_pages 0 raw)
                    (a_chunk_size a) (a_overlap a)) as Hnd.
      by rewrite <- (chunk_text_returns_emitted _ _ _ _ _ C). }
    split; [unfold extract_text; by rewrite E |]. split; [done |].
    split; [done |]. split; [apply upsert_all_dom |].
    intros Hempty. subst col1. rewrite Hempty.
    by rewrite upsert_all_size.
Qed.

End MainProperties.

(** ** The entry point on concrete runs *)





Lemma reingestion_idempotent_witness :
  exists chunks,
    NoDup (chunk_id <$> chunks)
    /\ size (target (Args "a.pdf" "db" "docs" 3 1 "m")
               (r_database
                  (main (fun _ _ => tt) 5 (Args "a.pdf" "db" "docs" 3 1 "m")
                     (after (one_file "a.pdf" ["a b c d"; "e"] ∅)
                        (main (fun _ _ => tt) 5
                           (Args "a.pdf" "db" "docs" 3 1 "m")
                           (one_file "a.pdf" ["a b c d"; "e"] ∅))))))
       = length chunks.
Proof.
  destruct (reingestion_idempotent (fun _ _ => tt) 5
              (Args "a.pdf" "db" "docs" 3 1 "m")
              (one_file "a.pdf" ["a b c d"; "e"] ∅)) as (_ & _ & _ & _ & H).
  destruct (H eq_refl) as (pages & chunks & _ & _ & Hnd & _ & Hsz).
  exists chunks. split; [exact Hnd |].
  destruct (Hsz eq_refl) as [_ H2]. exact H2.
Defined.

(** [Path(args.pdf)] on concrete texts: a leading [./], a doubled slash,
    a trailing slash and a trailing [/.] are dropped, and the name is the
    last component that is left. *)
Example path_examples :
  Py.path_str (Py.Path "./missing.pdf") = "missing.pdf"%string
  /\ Py.path_str (Py.Path "a//b") = "a/b"%string
  /\ Py.path_str (Py.Path "x/") = "x"%string
  /\ Py.path_str (Py.Path "//srv/a.pdf") = "//srv/a.pdf"%string
  /\ Py.path_str (Py.Path "///a.pdf") = "/a.pdf"%string
  /\ Py.path_str (Py.Path EmptyString) = "."%string
  /\ Py.path_name (Py.Path "docs/a.pdf/") = "a.pdf"%string
  /\ Py.path_name (Py.Path "a.pdf/.") = "a.pdf"%string
  /\ Py.path_name (Py.Path "docs/..") = ".."%string
  /\ Py.path_name (Py.Path "/") = EmptyString.
Proof. repeat split; reflexivity. Qed.

(** The message names the path as [str(Path(...))] gives it, not as it
    was typed. *)
Example main_message_example :
  main (fun _ _ => tt) 5 (Args "./missing.pdf" "db" "docs" 512 128 "m")
    (one_file "a.pdf" ["a b"] ∅)
  = Run (SystemExit "[ingest] ❌ File not found: missing.pdf") [] ∅.
Proof. reflexivity. Qed.

(** * Part IV: further properties of the pipeline *)

(** ** Extraction and whitespace normalisation *)

Lemma split_nonempty s :
  Py.continues_word s = true -> Py.split s <> [].
Proof.
  destruct s as [|c s]; [done |]. simpl. intros Hc.
  destruct (Py.isspace c); [done |].
  destruct (Py.continues_word s); [by destruct (Py.split s) | done].
Qed.

Lemma join_push_char c w ws :
  Py.join " " (Py.push_char c (w :: ws)) = String c (Py.join " " (w :: ws)).
Proof. simpl. by destruct ws. Qed.

Lemma join_words_nonempty ws :
  Forall is_word ws -> ws <> [] -> Py.join " " ws <> EmptyString.
Proof.
  intros Hw Hne. destruct Hw as [|w ws [Hw _] _]; [done |].
  simpl. destruct ws; by destruct w.
Qed.

Lemma lstrip_collapse s :
  Py.lstrip (Py.collapse_whitespace s) = Py.collapse_whitespace (Py.lstrip s).
Proof.
  induction s as [|c s IH]; [done |]. simpl.
  destruct (Py.isspace c) eqn:Ec.
  - destruct s as [|c' s]; [done |].
    destruct (Py.isspace c') eqn:Ec'; [exact IH |].
    simpl Py.lstrip at 1. exact IH.
  - simpl. by rewrite Ec.
Qed.

Lemma split_lstrip s : Py.split (Py.lstrip s) = Py.split s.
Proof.
  induction s as [|c s IH]; [done |]. simpl.
  destruct (Py.isspace c) eqn:Ec; [exact IH |]. simpl. by rewrite Ec.
Qed.

Lemma lstrip_starts s : starts_with_space (Py.lstrip s) = false.
Proof.
  induction s as [|c s IH]; [done |]. simpl.
  destruct (Py.isspace c) eqn:Ec; [exact IH |]. simpl. exact Ec.
Qed.

Lemma collapse_cons c s :
  Py.collapse_whitespace (String c s)
  = if Py.isspace c then
      if starts_with_space s then Py.collapse_whitespace s
      else String " " (Py.collapse_whitespace s)
    else String c (Py.collapse_whitespace s).
Proof. by destruct s. Qed.

Lemma split_cons c s :
  Py.split (String c s)
  = if Py.isspace c then Py.split s
    else if Py.continues_word s then Py.push_char c (Py.split s)
    else String c EmptyString :: Py.split s.
Proof. done. Qed.

Lemma rstrip_cons c s :
  Py.rstrip (String c s)
  = match Py.rstrip s with
    | EmptyString => if Py.isspace c then EmptyString else String c EmptyString
    | r => String c r
    end.
Proof. done. Qed.

Lemma first_character s :
  (Py.continues_word s = true -> starts_with_space s = false)
  /\ (Py.continues_word s = false -> Py.split s <> [] ->
      starts_with_space s = true).
Proof.
  destruct s as [|c s]; [done |]. simpl.
  destruct (Py.isspace c); simpl; [done |].
  split; [done |]. intros ? _. done.
Qed.

(** [rstrip] after collapsing: the words joined by single spaces, after a
    single space when the string began with whitespace and has a word. *)
Lemma rstrip_collapse s :
  Py.rstrip (Py.collapse_whitespace s)
  = (if starts_with_space s && negb (bool_decide (Py.split s = []))
     then " " else "") +:+ Py.join " " (Py.split s).
Proof.
  induction s as [|c s IH]; [done |].
  pose proof (split_words s) as Hws.
  pose proof (split_nonempty s) as Hcont.
  destruct (first_character s) as [Hfc1 Hfc2].
  rewrite collapse_cons, split_cons. cbn [starts_with_space].
  remember (Py.split s) as ws eqn:Ews.
  remember (Py.collapse_whitespace s) as X eqn:EX.
  destruct (Py.isspace c) eqn:Ec; cbn [andb].
  - destruct (starts_with_space s) eqn:Es; [exact IH |].
    rewrite rstrip_cons, IH. cbn [andb].
    destruct ws as [|w ws]; [reflexivity |].
    rewrite bool_decide_eq_false_2 by done. cbn [negb].
    pose proof (join_words_nonempty (w :: ws) Hws) as Hj.
    destruct (Py.join " " (w :: ws)) eqn:Ej; [by destruct Hj |].
    reflexivity.
  - rewrite rstrip_cons, IH, Ec.
    destruct (Py.continues_word s) eqn:Ecw.
    + rewrite (Hfc1 eq_refl). cbn [andb].
      destruct ws as [|w ws]; [by destruct (Hcont eq_refl) |].
      rewrite join_push_char.
      pose proof (join_words_nonempty (w :: ws) Hws) as Hj.
      destruct (Py.join " " (w :: ws)) eqn:Ej; [by destruct Hj |].
      reflexivity.
    + destruct ws as [|w ws].
      * rewrite bool_decide_eq_true_2 by done.
        rewrite andb_false_r. reflexivity.
      * rewrite (Hfc2 eq_refl) by done.
        rewrite bool_decide_eq_false_2 by done. reflexivity.
Qed.

Lemma normalized_join_split raw :
  normalized raw = Py.join " " (Py.split raw).
Proof.
  unfold normalized, Py.strip.
  rewrite lstrip_collapse, rstrip_collapse, lstrip_starts, split_lstrip.
  reflexivity.
Qed.

(** X2. The text kept for a page is the page's words joined by single
    spaces: normalising changes no word, leaves nothing to normalise a
    second time, and gives the empty string exactly for a page without
    words. *)
Theorem normalized_words raw :
  normalized raw = Py.join " " (Py.split raw)
  /\ Py.split (normalized raw) = Py.split raw
  /\ normalized (normalized raw) = normalized raw
  /\ (normalized raw = EmptyString <-> Py.split raw = []).
Proof.
  pose proof (split_words raw) as Hw.
  assert (Hs : Py.split (normalized raw) = Py.split raw)
    by (by rewrite normalized_join_split, split_join).
  split; [apply normalized_join_split |]. split; [exact Hs |]. split.
  - by rewrite (normalized_join_split (normalized raw)), Hs,
      <- normalized_join_split.
  - rewrite normalized_join_split. split.
    + intros Hj. destruct (Py.split raw) as [|w ws] eqn:E; [done |].
      by destruct (join_words_nonempty (w :: ws) Hw).
    + by intros ->.
Qed.

Lemma extract_pages_elem i raw_pages p :
  p ∈ extract_pages i raw_pages
  <-> exists (k : nat) raw,
        raw_pages !! k = Some raw /\ pi_page p = i + Z.of_nat k + 1
        /\ pi_text p = normalized raw /\ normalized raw <> EmptyString.
Proof.
  revert i. induction raw_pages as [|raw rest IH]; intros i.
  - simpl. split; [by intros ?%elem_of_nil | by intros (k & r & ? & _)].
  - cbn [extract_pages]. fold (normalized raw).
    assert (Hrest : p ∈ extract_pages (i + 1) rest
              <-> exists (k : nat) r, (raw :: rest) !! S k = Some r
                    /\ pi_page p = i + Z.of_nat (S k) + 1
                    /\ pi_text p = normalized r /\ normalized r <> EmptyString).
    { rewrite IH. split; intros (k & r & Hk & Hp & Ht); exists k, r;
        (split; [exact Hk |]); (split; [lia | exact Ht]). }
    assert (Hhead : forall r, (raw :: rest) !! 0%nat = Some r -> r = raw)
      by (by intros r [= <-]).
    destruct (normalized raw) as [|a t] eqn:En.
    + rewrite Hrest. split.
      * intros (k & r & H); by exists (S k), r.
      * intros ([|k] & r & Hk & Hp & Ht & Hne).
        -- apply Hhead in Hk as ->. by rewrite En in Hne.
        -- by exists k, r.
    + rewrite elem_of_cons, Hrest. split.
      * intros [-> | (k & r & H)].
        -- exists 0%nat, raw. simpl. rewrite En. repeat split; (lia || done).
        -- by exists (S k), r.
      * intros ([|k] & r & Hk & Hp & Ht & Hne).
        -- apply Hhead in Hk as ->. left. destruct p as [pg tx].
           simpl in *. f_equal; [lia | by rewrite Ht, En].
        -- right. by exists k, r.
Qed.

Lemma extract_pages_sorted i raw_pages :
  StronglySorted (fun p q => pi_page p < pi_page q) (extract_pages i raw_pages).
Proof.
  revert i. induction raw_pages as [|raw rest IH]; intros i; [constructor |].
  cbn [extract_pages]. destruct (Py.strip _); [apply IH |].
  constructor; [apply IH |].
  apply Forall_forall. intros q (k & r & _ & Hq & _)%extract_pages_elem.
  simpl. lia.
Qed.

Section Extraction.
Context {vec : Type}.

(** X1. When the reader gives the raw text of the pages, extract_text
    returns exactly the pages whose normalised text is not empty, each
    with its 1-based position in the document as page number and its
    normalised text, in increasing order of page number; a page without
    text leaves no placeholder. *)
Theorem extract_text_pages (w : @world vec) pdf_path raw_pages :
  pdf_reader w pdf_path = inr raw_pages ->
  exists pages,
    extract_text w pdf_path = inr pages
    /\ StronglySorted (fun p q => pi_page p < pi_page q) pages
    /\ (length pages <= length raw_pages)%nat
    /\ forall p,
         p ∈ pages
         <-> exists (k : nat) raw,
               raw_pages !! k = Some raw /\ pi_page p = Z.of_nat k + 1
               /\ pi_text p = normalized raw /\ normalized raw <> EmptyString.
Proof.
  intros E. exists (extract_pages 0 raw_pages).
  split; [unfold extract_text; by rewrite E |].
  split; [apply extract_pages_sorted |]. split.
  - clear E. generalize 0.
    induction raw_pages as [|raw rest IH]; intros i; [done |].
    cbn [extract_pages]. destruct (Py.strip _); simpl.
    + specialize (IH (i + 1)). lia.
    + specialize (IH (i + 1)). lia.
  - intros p. rewrite extract_pages_elem. by setoid_rewrite Z.add_0_l.
Qed.

End Extraction.

Lemma extract_text_pages_witness :
  exists pages,
    extract_text (one_file "a.pdf" ["  a b"; "  "; "c"] ∅) "a.pdf" = inr pages
    /\ pi_page <$> pages = [1; 3].
Proof.
  destruct (extract_text_pages (one_file "a.pdf" ["  a b"; "  "; "c"] ∅)
              "a.pdf" ["  a b"; "  "; "c"]%string eq_refl)
    as (pages & E & _).
  exists pages. split; [exact E |].
  vm_compute in E. injection E as <-. reflexivity.
Defined.

(** ** More on the chunks of a page *)

Lemma slice_all {A : Type} (l : list A) : Py.slice l 0 (Py.len l) = l.
Proof.
  destruct (slice_range l 0 (Py.len l)) as [-> _]; [unfold Py.len; lia.. |].
  rewrite Z.sub_0_r. unfold Py.len. rewrite Nat2Z.id. simpl.
  by rewrite take_ge.
Qed.

(** X3. A page with at least one word and at most chunk_size words gives
    exactly one chunk, whatever the overlap (also an overlap that is not
    below chunk_size): it covers [0, n), its text is the page's normalised
    text, and the loop needs a single iteration. *)
Theorem short_page_one_chunk fuel p chunk_size overlap idx :
  0 < Py.len (Py.split (pi_text p)) <= chunk_size ->
  let words := Py.split (pi_text p) in
  let c := make_chunk words (pi_page p) idx 0 (Py.len words) in
  chunk_page (S fuel) words (pi_page p) chunk_size overlap 0 idx
  = ([c], Some (idx + 1))
  /\ page_chunks p chunk_size overlap idx = [c]
  /\ text c = normalized (pi_text p)
  /\ chunk_text (S fuel) [p] chunk_size overlap
     = Some [make_chunk words (pi_page p) 0 0 (Py.len words)].
Proof.
  intros Hn. cbn zeta.
  assert (E : forall f i,
    chunk_page (S f) (Py.split (pi_text p)) (pi_page p) chunk_size overlap 0 i
    = ([make_chunk (Py.split (pi_text p)) (pi_page p) i 0
          (Py.len (Py.split (pi_text p)))], Some (i + 1))).
  { intros f i. cbn [chunk_page].
    destruct (Z.ltb_spec 0 (Py.len (Py.split (pi_text p)))); [| lia].
    rewrite Z.min_r by lia. by rewrite Z.eqb_refl. }
  split; [apply E |]. split; [unfold page_chunks; by rewrite E |]. split.
  - cbn [text make_chunk]. by rewrite slice_all, normalized_join_split.
  - unfold chunk_text. cbn [chunk_pages]. by rewrite E.
Qed.

Lemma short_page_one_chunk_witness :
  chunk_text 1 [PageInfo 7 "a b c"] 3 5
  = Some [make_chunk ["a"; "b"; "c"]%string 7 0 0 3].
Proof.
  destruct (short_page_one_chunk 0 (PageInfo 7 "a b c") 3 5 0) as (_ & _ & _ & H);
    [vm_compute; split; [reflexivity | discriminate] |].
  exact H.
Defined.

Lemma chunk_pages_skip_wordless fuel p rest chunk_size overlap idx :
  Py.split (pi_text p) = [] ->
  chunk_pages (S fuel) (p :: rest) chunk_size overlap idx
  = chunk_pages (S fuel) rest chunk_size overlap idx.
Proof.
  intros E. cbn [chunk_pages chunk_page]. rewrite E. simpl.
  by destruct (chunk_pages (S fuel) rest chunk_size overlap idx).
Qed.

Lemma chunk_pages_filter fuel pages chunk_size overlap idx :
  chunk_pages (S fuel) (filter (fun p => has_words p = true) pages)
    chunk_size overlap idx
  = chunk_pages (S fuel) pages chunk_size overlap idx.
Proof.
  revert idx. induction pages as [|p rest IH]; intros idx; [done |].
  unfold has_words at 1. rewrite filter_cons.
  destruct (decide (negb (bool_decide (Py.split (pi_text p) = [])) = true))
    as [Hw|Hw].
  - cbn [chunk_pages].
    destruct (chunk_page (S fuel) _ _ _ _ 0 idx) as [l1 [i1|]]; [| done].
    cbn [fst snd]. by rewrite IH.
  - rewrite chunk_pages_skip_wordless; [apply IH |].
    destruct (decide (Py.split (pi_text p) = [])) as [E|E]; [done |].
    by rewrite bool_decide_eq_false_2 in Hw.
Qed.

(** X4. Pages without words are transparent: with a bound of at least
    one iteration, for all parameters, chunk_text gives the same result
    on a page list and on that list without its wordless pages (same
    chunks, same counters and ids); on wordless pages alone, or on no
    page, it returns the empty list. *)
Theorem chunk_text_ignores_wordless_pages fuel pages chunk_size overlap :
  chunk_text (S fuel) pages chunk_size overlap
  = chunk_text (S fuel) (filter (fun p => has_words p = true) pages)
      chunk_size overlap
  /\ (filter (fun p => has_words p = true) pages = [] ->
      chunk_text (S fuel) pages chunk_size overlap = Some []).
Proof.
  assert (E : chunk_text (S fuel) pages chunk_size overlap
    = chunk_text (S fuel) (filter (fun p => has_words p = true) pages)
        chunk_size overlap)
    by (unfold chunk_text; by rewrite chunk_pages_filter).
  split; [exact E |]. intros Hf. by rewrite E, Hf.
Qed.

Lemma chunk_text_ignores_wordless_pages_witness :
  chunk_text 1 [PageInfo 1 ""; PageInfo 2 "   "] 4 9 = Some [].
Proof.
  destruct (chunk_text_ignores_wordless_pages 0
              [PageInfo 1 ""; PageInfo 2 "   "] 4 9) as [_ H].
  apply H. reflexivity.
Defined.

Section PageShape.
Variables (p : page_info) (chunk_size overlap idx : Z).

Local Abbreviation words := (Py.split (pi_text p)).
Local Abbreviation l := (page_chunks p chunk_size overlap idx).

Lemma page_chunks_first :
  0 < chunk_size - overlap -> 0 < Py.len words ->
  exists c rest, l = c :: rest /\ word_start c = 0.
Proof.
  intros Hs Hn.
  destruct (page_chunks_windows p chunk_size overlap idx Hs) as (idx' & HW).
  pose proof (windows_nonempty _ _ _ _ _ _ _ _ HW Hn) as Hne.
  destruct l as [|c rest] eqn:El; [done |].
  exists c, rest. split; [done |].
  destruct (windows_lookup _ _ _ _ _ _ _ _ 0%nat c HW eq_refl) as [-> _].
  simpl. lia.
Qed.

(** X6. For 0 <= overlap < chunk_size, every chunk of a page that is
    followed by another one has exactly chunk_size words; the last chunk
    ends at the page's last word and has between 1 and chunk_size words,
    and more than overlap words when it is not the only chunk: every
    chunk after the first brings at least one word that the chunk before
    it does not have. *)
Theorem page_chunk_widths (i : nat) c :
  0 <= overlap < chunk_size ->
  l !! i = Some c ->
  ((S i < length l)%nat -> word_end c - word_start c = chunk_size)
  /\ (S i = length l ->
      word_end c = Py.len words
      /\ 0 < word_end c - word_start c <= chunk_size
      /\ ((0 < i)%nat -> overlap < word_end c - word_start c)).
Proof.
  intros Hp Hi.
  destruct (page_chunks_windows p chunk_size overlap idx) as (idx' & HW);
    [lia |].
  destruct (windows_lookup _ _ _ _ _ _ _ _ i c HW Hi) as [Ec Hlt].
  split.
  - intros Hnext.
    destruct (lookup_lt_is_Some_2 l (S i) Hnext) as [b Hb].
    destruct (windows_adjacent _ _ _ _ _ _ _ _ i c b HW Hi Hb) as (He & _).
    lia.
  - intros Hlast.
    assert (Hl : last l = Some c).
    { rewrite last_lookup, <- Hlast. exact Hi. }
    pose proof (windows_last _ _ _ _ _ _ _ _ c (proj1 Hp) HW Hl) as Hend.
    split; [exact Hend |].
    assert (Hws : word_start c = Z.of_nat i * (chunk_size - overlap))
      by (rewrite Ec; simpl; lia).
    assert (Hwe : word_end c
                  = Z.min (word_start c + chunk_size) (Py.len words))
      by (rewrite Ec; simpl; f_equal; lia).
    split; [nia |].
    intros Hpos. destruct i as [|i]; [lia |].
    destruct (lookup_lt_is_Some_2 l i) as [a Ha];
      [apply lookup_lt_Some in Hi; lia |].
    destruct (windows_adjacent _ _ _ _ _ _ _ _ i a c HW Ha Hi)
      as (Hae & Halt & Hst & _).
    lia.
Qed.

(** X5. For 0 <= overlap < chunk_size a page of n > 0 words gives
    1 + max(0, ceil((n - chunk_size) / (chunk_size - overlap))) chunks. *)
Theorem page_chunk_count :
  0 <= overlap < chunk_size ->
  0 < Py.len words ->
  Z.of_nat (length l)
  = 1 + Z.max 0 ((Py.len words - chunk_size + (chunk_size - overlap) - 1)
                 / (chunk_size - overlap)).
Proof.
  intros Hp Hn.
  destruct (page_chunks_windows p chunk_size overlap idx) as (idx' & HW);
    [lia |].
  pose proof (windows_nonempty _ _ _ _ _ _ _ _ HW Hn) as Hne.
  destruct (last l) as [c|] eqn:Hl; [| by apply last_None in Hl].
  pose proof (windows_last _ _ _ _ _ _ _ _ c (proj1 Hp) HW Hl) as Hend.
  rewrite last_lookup in Hl.
  destruct (windows_lookup _ _ _ _ _ _ _ _ _ c HW Hl) as [Ec Hlt].
  assert (Hm : (0 < length l)%nat) by (destruct l; [done | simpl; lia]).
  set (m := length l) in *. set (n := Py.len words) in *.
  set (s := chunk_size - overlap) in *.
  assert (Hge : n <= Z.of_nat (pred m) * s + chunk_size).
  { rewrite Ec in Hend. simpl in Hend. lia. }
  assert (Hprev : (2 <= m)%nat -> Z.of_nat (m - 2) * s + chunk_size < n).
  { intros H2.
    destruct (lookup_lt_is_Some_2 l (m - 2)) as [a Ha]; [lia |].
    assert (Hc' : l !! S (m - 2) = Some c)
      by (by replace (S (m - 2)) with (pred m) by lia).
    destruct (windows_adjacent _ _ _ _ _ _ _ _ _ a c HW Ha Hc')
      as (Hae & Halt & _).
    destruct (windows_lookup _ _ _ _ _ _ _ _ _ a HW Ha) as [Ea _].
    rewrite Ea in Hae, Halt. simpl in Hae, Halt. lia. }
  pose proof (Z.div_mod (n - chunk_size + s - 1) s ltac:(lia)) as Hdm.
  pose proof (Z.mod_pos_bound (n - chunk_size + s - 1) s ltac:(lia)) as Hmb.
  set (q := (n - chunk_size + s - 1) / s) in *.
  destruct (Nat.le_gt_cases 2 m) as [H2|H1].
  - specialize (Hprev H2).
    replace (Z.of_nat (pred m)) with (Z.of_nat (m - 2) + 1) in Hge by lia.
    nia.
  - assert (m = 1%nat) as -> by lia. nia.
Qed.

Lemma range_tail (ws : list string) (s e k : nat) :
  (s + k <= e)%nat ->
  drop k (take (e - s) (drop s ws)) ++ drop e ws = drop (s + k) ws.
Proof.
  intros H. rewrite take_drop_commute, drop_drop.
  replace (s + (e - s))%nat with e by lia.
  by apply drop_take_drop.
Qed.

End PageShape.

Lemma page_chunk_widths_witness :
  word_end (make_chunk (Py.split "a b c d e") 1 1 2 5)
  - word_start (make_chunk (Py.split "a b c d e") 1 1 2 5) = 3.
Proof.
  destruct (page_chunk_widths (PageInfo 1 "a b c d e") 4 2 0 1%nat
              (make_chunk (Py.split "a b c d e") 1 1 2 5)) as [_ H];
    [lia | reflexivity |].
  destruct (H eq_refl) as (_ & _ & _). reflexivity.
Defined.

Lemma page_chunk_count_witness :
  Z.of_nat (length (page_chunks (PageInfo 1 (words_n 1024)) 512 128 0)) = 3.
Proof.
  rewrite (page_chunk_count (PageInfo 1 (words_n 1024)) 512 128 0);
    [| lia | vm_compute; reflexivity].
  vm_compute. reflexivity.
Defined.

(** ** Nothing is lost between the chunks of a page *)

Lemma windows_rebuild words page_num chunk_size overlap start idx l idx' :
  windows words page_num chunk_size overlap start idx l idx' ->
  0 <= start -> 0 <= overlap < chunk_size ->
  match l with
  | [] => Py.len words <= start
  | c :: rest =>
      word_start c = start /\ start <= word_end c <= Py.len words
      /\ mjoin ((fun c' =>
                   drop (Z.to_nat overlap)
                     (take (Z.to_nat (word_end c' - word_start c'))
                        (drop (Z.to_nat (word_start c')) words))) <$> rest)
         = drop (Z.to_nat (word_end c)) words
  end.
Proof.
  intros HW. induction HW as [start idx Hge | start idx Hlt Hend
                             | start idx l idx' Hlt Hend HW IH];
    intros H0 Hp.
  - done.
  - simpl. split; [done |]. split; [lia |].
    unfold Py.len. rewrite Nat2Z.id. by rewrite drop_all.
  - cbn [word_start word_end make_chunk]. split; [done |]. split; [lia |].
    specialize (IH ltac:(lia) Hp).
    destruct l as [|c1 rest]; [lia |].
    destruct IH as (Hs1 & [Hle1 Hle2] & Hrest).
    destruct (windows_lookup _ _ _ _ _ _ _ _ 0%nat c1 HW eq_refl) as [Ec1 _].
    assert (He1 : start + chunk_size <= word_end c1)
      by (rewrite Ec1; simpl; lia).
    rewrite fmap_cons.
    change (mjoin (?x :: ?xs)) with (x ++ mjoin xs).
    rewrite Hrest, Hs1.
    replace (Z.to_nat (word_end c1 - (start + (chunk_size - overlap))))
      with (Z.to_nat (word_end c1)
            - Z.to_nat (start + (chunk_size - overlap)))%nat by lia.
    rewrite range_tail by lia. f_equal. lia.
Qed.

(** X7. For 0 <= overlap < chunk_size the chunks of a page hold all its
    words and repeat exactly the overlap: the words of the first chunk,
    followed by the words of every later chunk without its first overlap
    words, are the page's word list. *)
Theorem page_chunks_rebuild p chunk_size overlap idx :
  0 <= overlap < chunk_size ->
  rebuild (Z.to_nat overlap) (page_chunks p chunk_size overlap idx)
  = Py.split (pi_text p).
Proof.
  intros Hp.
  destruct (page_chunks_windows p chunk_size overlap idx) as (idx' & HW);
    [lia |].
  assert (Hwords : Forall (fun c =>
            chunk_words c
            = take (Z.to_nat (word_end c - word_start c))
                (drop (Z.to_nat (word_start c)) (Py.split (pi_text p))))
            (page_chunks p chunk_size overlap idx)).
  { apply Forall_forall. intros c [i Hi]%list_elem_of_lookup.
    destruct (windows_lookup _ _ _ _ _ _ _ _ i c HW Hi) as [-> Hlt].
    destruct (make_chunk_contents_ok (Py.split (pi_text p)) (pi_page p)
                (idx + Z.of_nat i)
                (0 + Z.of_nat i * (chunk_size - overlap)) chunk_size)
      as (_ & _ & _ & Hsp & _); [apply split_words | lia | nia |].
    exact Hsp. }
  pose proof (windows_rebuild _ _ _ _ _ _ _ _ HW (Z.le_refl 0) Hp) as Hr.
  destruct (page_chunks p chunk_size overlap idx) as [|c rest] eqn:El.
  - simpl. destruct (Py.split (pi_text p)); [done |].
    unfold Py.len in Hr. simpl in Hr. lia.
  - destruct Hr as (Hs & [_ Hle] & Hrest).
    apply Forall_cons in Hwords as [Hc Hwrest].
    unfold rebuild. rewrite Hc, Hs.
    assert (Hmap : (fun c' => drop (Z.to_nat overlap) (chunk_words c')) <$> rest
              = (fun c' => drop (Z.to_nat overlap)
                   (take (Z.to_nat (word_end c' - word_start c'))
                      (drop (Z.to_nat (word_start c'))
                         (Py.split (pi_text p))))) <$> rest).
    { apply Forall_fmap_ext_1. eapply Forall_impl; [exact Hwrest |].
      intros c' Hc'. simpl. by rewrite Hc'. }
    rewrite Hmap, Hrest. simpl drop at 1. rewrite Z.sub_0_r.
    apply take_drop.
Qed.

Lemma page_chunks_rebuild_witness :
  rebuild 1 (page_chunks (PageInfo 1 "a b c d e f g") 3 1 0)
  = ["a"; "b"; "c"; "d"; "e"; "f"; "g"]%string.
Proof.
  apply (page_chunks_rebuild (PageInfo 1 "a b c d e f g") 3 1 0). lia.
Defined.

(** ** Document order *)

Lemma windows_sorted words page_num chunk_size overlap start idx l idx' :
  windows words page_num chunk_size overlap start idx l idx' ->
  0 < chunk_size - overlap ->
  StronglySorted (fun a b => word_start a < word_start b) l
  /\ Forall (fun c => start <= word_start c /\ page c = page_num) l.
Proof.
  intros HW Hs. induction HW as [start idx Hge | start idx Hlt Hend
                                | start idx l idx' Hlt Hend HW [IH1 IH2]].
  - split; constructor.
  - split; [repeat constructor |]. constructor; [simpl; lia | done].
  - split.
    + constructor; [exact IH1 |].
      eapply Forall_impl; [exact IH2 |]. intros c [Hc _]. simpl. lia.
    + constructor; [simpl; lia |].
      eapply Forall_impl; [exact IH2 |]. intros c [Hc Hpg]. split; [lia | done].
Qed.

Lemma chunk_pages_page_of fuel pages chunk_size overlap idx :
  Forall (fun c => exists p, p ∈ pages /\ page c = pi_page p)
    (chunk_pages fuel pages chunk_size overlap idx).1.
Proof.
  revert idx. induction pages as [|p rest IH]; intros idx; [done |].
  cbn [chunk_pages].
  destruct (chunk_page_numbered fuel (Py.split (pi_text p)) (pi_page p)
              chunk_size overlap 0 idx) as (_ & Hf & _). cbn zeta in Hf.
  assert (Hp : Forall (fun c => exists q, q ∈ p :: rest /\ page c = pi_page q)
                 (chunk_page fuel (Py.split (pi_text p)) (pi_page p)
                    chunk_size overlap 0 idx).1).
  { eapply Forall_impl; [exact Hf |]. intros c [_ Hc].
    exists p. split; [apply list_elem_of_here | done]. }
  destruct (chunk_page fuel _ _ _ _ 0 idx) as [l1 [i1|]]; cbn [fst snd] in *;
    [| done].
  apply Forall_app. split; [done |].
  eapply Forall_impl; [exact (IH i1) |]. intros c (q & Hq & Hc).
  exists q. split; [by apply list_elem_of_further | done].
Qed.

(** X12. With a positive stride and pages given in increasing order of
    page number, as extract_text gives them, the list that chunk_text
    returns is in document order: by page number, and within a page by
    word_start; chunk_index, the position in that list, is therefore a
    sort key for reading order. *)
Theorem chunk_text_document_order fuel pages chunk_size overlap chunks :
  0 < chunk_size - overlap ->
  StronglySorted (fun p q => pi_page p < pi_page q) pages ->
  chunk_text fuel pages chunk_size overlap = Some chunks ->
  StronglySorted before_in_document chunks.
Proof.
  intros Hs Hsorted. unfold chunk_text.
  destruct (chunk_pages fuel pages chunk_size overlap 0) as [l [i|]] eqn:E;
    cbn [fst snd]; [| discriminate].
  intros [= <-]. revert E. generalize 0 at 1. revert l i.
  induction Hsorted as [|p rest Hrest IH Hlt]; intros l i idx E.
  - injection E as <- _. constructor.
  - cbn [chunk_pages] in E.
    destruct (chunk_page fuel _ _ _ _ 0 idx) as [l1 [i1|]] eqn:E1;
      cbn [fst snd] in E; [| discriminate].
    destruct (chunk_pages fuel rest chunk_size overlap i1) as [l2 r2] eqn:E2.
    cbn [fst snd] in E. injection E as <- ->.
    apply chunk_page_windows in E1.
    destruct (windows_sorted _ _ _ _ _ _ _ _ E1 Hs) as [Hs1 Hp1].
    pose proof (chunk_pages_page_of fuel rest chunk_size overlap i1) as Hp2.
    rewrite E2 in Hp2. cbn [fst] in Hp2.
    apply StronglySorted_app_2.
    + intros a b Ha Hb. left.
      rewrite Forall_forall in Hp1. rewrite Forall_forall in Hp2.
      rewrite Forall_forall in Hlt.
      destruct (Hp1 a Ha) as [_ ->]. destruct (Hp2 b Hb) as (q & Hq & ->).
      by apply Hlt.
    + clear -Hs1 Hp1. revert Hp1.
      induction Hs1 as [|a l1 Hl1 IH Ha]; intros Hp1; [constructor |].
      apply Forall_cons in Hp1 as [[_ Hpa] Hp1].
      constructor; [by apply IH |].
      rewrite Forall_forall in Ha. rewrite Forall_forall in Hp1.
      apply Forall_forall. intros b Hb.
      right. split; [| by apply Ha]. destruct (Hp1 b Hb) as [_ ->]. done.
    + by eapply IH.
Qed.

Lemma chunk_text_document_order_witness :
  StronglySorted before_in_document
    (chunk_text_emitted 6 (extract_pages 0 ["a b c d e"; " "; "f g"]) 3 1).
Proof.
  apply (chunk_text_document_order 6 (extract_pages 0 ["a b c d e"; " "; "f g"])
           3 1);
    [lia | apply extract_pages_sorted | vm_compute; reflexivity].
Defined.

(** ** What the store holds after a run *)

Lemma last_with_id_NoDup chunks c :
  NoDup (chunk_id <$> chunks) -> c ∈ chunks ->
  last_with_id (chunk_id c) chunks = Some c.
Proof.
  induction chunks as [|c' rest IH]; intros Hnd Hc; [by apply elem_of_nil in Hc |].
  rewrite fmap_cons in Hnd. apply NoDup_cons in Hnd as [Hnotin Hnd].
  cbn [last_with_id]. apply elem_of_cons in Hc as [-> | Hc].
  - destruct (last_with_id (chunk_id c') rest) as [c''|] eqn:E.
    + exfalso. apply Hnotin.
      assert (Hin : c'' ∈ rest /\ chunk_id c'' = chunk_id c').
      { clear -E. induction rest as [|x rest IH]; [done |].
        cbn [last_with_id] in E.
        destruct (last_with_id (chunk_id c') rest) as [y|].
        - injection E as ->. destruct (IH eq_refl) as [? ?].
          split; [by apply list_elem_of_further | done].
        - case_decide; [| done]. injection E as ->.
          split; [apply list_elem_of_here | done]. }
      destruct Hin as [Hin <-]. by apply list_elem_of_fmap_2.
    + by rewrite decide_True.
  - by rewrite (IH Hnd Hc).
Qed.

Lemma last_with_id_None k chunks :
  k ∉ chunk_id <$> chunks -> last_with_id k chunks = None.
Proof.
  induction chunks as [|c rest IH]; intros Hk; [done |].
  rewrite fmap_cons in Hk. apply not_elem_of_cons in Hk as [Hne Hk].
  cbn [last_with_id]. rewrite (IH Hk). by rewrite decide_False.
Qed.

Section StoreContents.
Context {vec : Type} (embed : string -> string -> vec).

Local Abbreviation collection := (gmap string (@stored vec)).

Lemma get_collection_insert (db : gmap (string * string) collection)
    db_dir collection_name col :
  get_collection (<[(db_dir, collection_name) := col]> db)
    db_dir collection_name = col.
Proof. unfold get_collection. by rewrite lookup_insert_eq. Qed.

(** X8. After a run that finishes, the named collection maps the id of
    every chunk that chunk_text returned to that chunk's record: the
    embedding of its text, its text, and its page, chunk_index, word_start
    and word_end with Path(args.pdf).name, the last component of the
    document path, as source. *)
Theorem main_stores_every_chunk fuel a (w : @world vec) raw_pages chunks c :
  path_exists w (document a) = true ->
  pdf_reader w (document a) = inr raw_pages ->
  chunk_text fuel (extract_pages 0 raw_pages) (a_chunk_size a) (a_overlap a)
  = Some chunks ->
  c ∈ chunks ->
  target a (r_database (main embed fuel a w)) !! chunk_id c
  = Some {| s_embedding := embed (a_model a) (text c);
            s_document := text c;
            s_metadata :=
              {| md_page := page c;
                 md_chunk_index := chunk_index c;
                 md_word_start := word_start c;
                 md_word_end := word_end c;
                 md_source := Py.path_name (pdf_path a) |} |}.
Proof.
  intros H E C Hc. rewrite (main_finished embed _ _ _ raw_pages chunks) by done.
  cbn [r_database]. unfold target at 1. rewrite get_collection_insert.
  rewrite upsert_all_lookup, last_with_id_NoDup; [done | | done].
  rewrite <- (chunk_text_returns_emitted _ _ _ _ _ C).
  apply chunk_text_ids_NoDup.
Qed.

(** X9. embed_and_store never deletes and never touches what it was not
    given: every other collection of the database is as before, and in
    the named collection every record whose id is not the id of one of
    the chunks is as before, so every id that was stored stays stored
    (records of chunks that a shorter document no longer has remain). *)
Theorem embed_and_store_keeps_the_rest
    (db : gmap (string * string) collection) (chunks : list chunk)
    (db_dir collection_name model_name source_name : string) :
  let db' := (embed_and_store embed db chunks db_dir collection_name
                model_name source_name).1.1 in
  (forall key, key <> (db_dir, collection_name) -> db' !! key = db !! key)
  /\ (forall k, k ∉ chunk_id <$> chunks ->
        get_collection db' db_dir collection_name !! k
        = get_collection db db_dir collection_name !! k)
  /\ dom (get_collection db db_dir collection_name)
     ⊆ dom (get_collection db' db_dir collection_name).
Proof.
  cbn zeta. unfold embed_and_store. cbn [fst].
  rewrite store_chunks_upsert_all.
  split; [| split].
  - intros key Hkey. by rewrite lookup_insert_ne.
  - intros k Hk. rewrite get_collection_insert.
    by rewrite upsert_all_lookup, last_with_id_None.
  - rewrite get_collection_insert, upsert_all_dom. apply union_subseteq_l.
Qed.

End StoreContents.

Lemma main_stores_every_chunk_witness :
  (fun s => (s_document s, md_source (s_metadata s)))
    <$> (target (Args "./docs//a.pdf/" "db" "docs" 3 1 "m")
           (r_database
              (main (fun _ _ => tt) 5
                 (Args "./docs//a.pdf/" "db" "docs" 3 1 "m")
                 (one_file "docs/a.pdf" ["a b c d"] ∅)))
         !! "p1_c1"%string)
  = Some ("c d"%string, "a.pdf"%string).
Proof.
  rewrite (main_stores_every_chunk (fun _ _ => tt) 5
             (Args "./docs//a.pdf/" "db" "docs" 3 1 "m")
             (one_file "docs/a.pdf" ["a b c d"] ∅) ["a b c d"%string]
             (chunk_text_emitted 5 (extract_pages 0 ["a b c d"]) 3 1)
             (make_chunk (Py.split "a b c d") 1 1 2 4));
    [reflexivity | reflexivity | reflexivity | vm_compute; reflexivity |].
  vm_compute. apply list_elem_of_further, list_elem_of_here.
Defined.

Lemma upsert_calls_fmap {A : Type} (g : A -> list string) (l : list A) :
  upsert_calls ((fun i => EvUpsert (g i)) <$> l) = g <$> l.
Proof.
  unfold upsert_calls. induction l as [|x rest IH]; [done |].
  rewrite !fmap_cons. cbn [omap list_omap]. by f_equal.
Qed.

Section StoreCalls.
Context {vec : Type} (embed : string -> string -> vec).

(** X10. embed_and_store hands the ids to the store in
    ceil(len(chunks) / 128) upsert calls; call number i (from 0) carries
    the ids 128*i up to 128*i + 128, so every call has between 1 and 128
    ids, and no call is made for an empty chunk list.  The total_chunks of
    the returned statistics is len(chunks). *)
Theorem embed_and_store_calls
    (db : gmap (string * string) (gmap string (@stored vec)))
    (chunks : list chunk)
    (db_dir collection_name model_name source_name : string) :
  let r := embed_and_store embed db chunks db_dir collection_name
             model_name source_name in
  let calls := upsert_calls r.1.2 in
  Z.of_nat (length calls) = (Py.len chunks + 127) / 128
  /\ (forall (i : nat) b, calls !! i = Some b ->
        b = take 128 (drop (i * 128) (chunk_id <$> chunks))
        /\ (1 <= length b <= 128)%nat)
  /\ st_total_chunks r.2 = Py.len chunks.
Proof.
  cbn zeta. unfold embed_and_store. cbn [fst snd st_total_chunks].
  change (upsert_calls (EvLoadModel model_name
            :: EvOpenCollection db_dir collection_name :: ?evs))
    with (upsert_calls evs).
  rewrite (upsert_calls_fmap
             (fun i => Py.slice (chunk_id <$> chunks) i (i + 128))).
  unfold Py.range. rewrite length_fmap, length_fmap, length_seq.
  pose proof (Z.div_mod (Py.len chunks - 0 + 128 - 1) 128 ltac:(lia)) as Hdm.
  pose proof (Z.mod_pos_bound (Py.len chunks - 0 + 128 - 1) 128 ltac:(lia))
    as Hmb.
  replace (Py.len chunks - 0 + 128 - 1) with (Py.len chunks + 127) in * by lia.
  assert (Hn : 0 <= Py.len chunks) by (unfold Py.len; lia).
  split; [lia |]. split; [| done].
  intros i b. rewrite !list_lookup_fmap.
  destruct (seq 0 _ !! i) as [k|] eqn:Ek; [| done].
  apply lookup_seq in Ek as [-> Hi]. cbn [fmap option_fmap option_map].
  intros [= <-]. rewrite Z.add_0_l.
  rewrite (slice_batch (chunk_id <$> chunks) i 128) by lia.
  change (Z.to_nat 128) with 128%nat. split; [done |].
  rewrite length_take, length_drop, length_fmap.
  unfold Py.len in *. lia.
Qed.


End StoreCalls.


(** ** A stride that is not positive *)

Lemma chunk_pages_reaches_spin fuel pre p post chunk_size overlap idx :
  chunk_size - overlap <= 0 ->
  0 < Py.len (Py.split (pi_text p)) ->
  chunk_size < Py.len (Py.split (pi_text p)) ->
  (chunk_pages fuel (pre ++ p :: post) chunk_size overlap idx).2 = None.
Proof.
  intros Hs Hn Hc. revert idx. induction pre as [|q pre IH]; intros idx.
  - cbn [app chunk_pages].
    destruct (chunk_page_spins (Py.split (pi_text p)) (pi_page p) chunk_size
                overlap fuel 0 idx Hs (Z.le_refl 0) Hc Hn) as [E _].
    by rewrite E.
  - cbn [app chunk_pages].
    destruct (chunk_page fuel _ _ _ _ 0 idx) as [l1 [i1|]]; [| done].
    cbn [fst snd]. apply IH.
Qed.

Lemma chunk_pages_short fuel pages chunk_size overlap idx :
  Forall (fun p => Py.split (pi_text p) = []
                   \/ Py.len (Py.split (pi_text p)) <= chunk_size) pages ->
  exists l idx',
    chunk_pages (S fuel) pages chunk_size overlap idx = (l, Some idx').
Proof.
  intros Hall. revert idx.
  induction Hall as [|p rest Hp _ IH]; intros idx; [by eexists _, _ |].
  cbn [chunk_pages chunk_page].
  destruct (Z.ltb_spec 0 (Py.len (Py.split (pi_text p)))) as [Hpos|Hzero].
  - destruct Hp as [Hp|Hp]; [rewrite Hp in Hpos; done |].
    rewrite Z.min_r by lia. rewrite Z.eqb_refl. cbn [fst snd].
    destruct (IH (idx + 1)) as (l & idx' & ->). by eexists _, _.
  - cbn [fst snd]. destruct (IH idx) as (l & idx' & ->). by eexists _, _.
Qed.

(** X13. With chunk_size - overlap <= 0 the call chunk_text returns
    exactly when no page has more words than chunk_size: on one such page
    the cursor never passes the end of the page and the loop is not left,
    whatever the bound; when every page has at most chunk_size words (or
    none) a single iteration per page is enough. *)
Theorem chunk_text_returns_iff_short_pages pages chunk_size overlap :
  chunk_size - overlap <= 0 ->
  (exists fuel chunks, chunk_text fuel pages chunk_size overlap = Some chunks)
  <-> Forall (fun p => Py.split (pi_text p) = []
                       \/ Py.len (Py.split (pi_text p)) <= chunk_size) pages.
Proof.
  intros Hs. split.
  - intros (fuel & chunks & E). apply Forall_forall. intros p Hp.
    destruct (Py.split (pi_text p)) as [|w ws] eqn:Ew; [by left |]. right.
    destruct (Z.le_gt_cases (Py.len (w :: ws)) chunk_size) as [Hle|Hgt];
      [done |].
    exfalso. apply list_elem_of_split in Hp as (pre & post & ->).
    pose proof (chunk_pages_reaches_spin fuel pre p post chunk_size overlap 0
                  Hs) as Hspin.
    rewrite Ew in Hspin. unfold chunk_text in E.
    rewrite Hspin in E; [done | unfold Py.len; simpl; lia | lia].
  - intros Hall.
    destruct (chunk_pages_short 0 pages chunk_size overlap 0 Hall)
      as (l & idx' & E).
    exists 1%nat, l. unfold chunk_text. by rewrite E.
Qed.

Lemma chunk_text_returns_iff_short_pages_witness :
  ~ exists fuel chunks,
      chunk_text fuel [PageInfo 1 "a b"; PageInfo 2 "a b c"] 2 2 = Some chunks.
Proof.
  intros H.
  apply (chunk_text_returns_iff_short_pages
           [PageInfo 1 "a b"; PageInfo 2 "a b c"] 2 2) in H; [| lia].
  apply Forall_cons in H as [_ H]. apply Forall_cons in H as [[H|H] _].
  - discriminate H.
  - vm_compute in H. by apply H.
Defined.

(** * Part V: the SQLite tools of server.py *)

(** ** Table names *)

Lemma span_spec f s :
  s = (Py.span f s).1 +:+ (Py.span f s).2
  /\ every f (Py.span f s).1
  /\ match (Py.span f s).2 with
     | EmptyString => True
     | String c _ => f c = false
     end.
Proof.
  induction s as [|c s (IH1 & IH2 & IH3)]; [done |]. cbn [Py.span].
  destruct (f c) eqn:Ec; cbn [fst snd every].
  - split; [rewrite IH1 at 1; reflexivity |]. split; [by split | done].
  - split; [done |]. split; [done | exact Ec].
Qed.

Lemma span_app f body rest :
  every f body ->
  match rest with EmptyString => True | String c _ => f c = false end ->
  Py.span f (body +:+ rest) = (body, rest).
Proof.
  intros Hb Hr. induction body as [|c body IH]; simpl.
  - destruct rest as [|c r]; [done |]. simpl. by rewrite Hr.
  - destruct Hb as [Hc Hb]. by rewrite Hc, (IH Hb).
Qed.

Lemma span_all f body : every f body -> Py.span f body = (body, EmptyString).
Proof.
  induction body as [|c body IH]; [done |]. intros [Hc Hb]. simpl.
  by rewrite Hc, (IH Hb).
Qed.

Lemma append_empty s : s +:+ EmptyString = s.
Proof.
  induction s as [|c s IH]; [done |].
  change (String c (s +:+ EmptyString) = String c s). by rewrite IH.
Qed.

(** X14. _valid_table_name accepts exactly the non-empty names made of
    ASCII letters, digits and underscores, and such a name followed by one
    newline (the [$] of the pattern also matches before a final newline);
    every other name, the empty one included, is rejected. *)
Theorem valid_table_name_iff name :
  _valid_table_name name = true
  <-> exists body,
        body <> EmptyString /\ every Py.ident_char body
        /\ (name = body \/ name = body +:+ newline_char).
Proof.
  unfold _valid_table_name.
  destruct (span_spec Py.ident_char name) as (Hs & Hb & Hr).
  split.
  - destruct (Py.span Py.ident_char name).1 as [|a body] eqn:E1; [done |].
    destruct (Py.span Py.ident_char name).2 as [|c [|c' r]] eqn:E2; [| | done].
    + intros _. exists (String a body). split; [done |]. split; [done |].
      left. rewrite Hs. apply append_empty.
    + intros Hc%Ascii.eqb_eq. subst c.
      exists (String a body). split; [done |]. split; [done |]. by right.
  - intros (body & Hne & Hbody & [-> | ->]).
    + rewrite (span_all Py.ident_char body) by done.
      by destruct body.
    + rewrite (span_app Py.ident_char body newline_char) by done.
      by destruct body.
Qed.

(** Membership in a concrete event list, case by case. *)
Ltac event_cases H :=
  repeat (apply elem_of_cons in H as [H|H]; [try discriminate H |]);
  try (by apply elem_of_nil in H).

Section SqliteToolProperties.
Context {row value : Type}.

Lemma get_conn_cases (db : @sqlite row value) :
  (db_exists db = false
   /\ _get_conn db
      = inl (Exn "FileNotFoundError" ("Database not found: " +:+ DB_PATH db)))
  \/ (db_exists db = true
      /\ _get_conn db
         = inr [DbConnect ("file:" +:+ DB_PATH db +:+ "?mode=ro")]).
Proof. unfold _get_conn. destruct (db_exists db); [by right | by left]. Qed.

(** X15. describe_table and sample_table put the table name into the
    statement text only after _valid_table_name has accepted it: a
    rejected name gives "Error: Invalid table name." without any access
    to the database, and every statement that they execute is
    PRAGMA table_info(<table>), respectively SELECT * FROM <table> LIMIT ?,
    for an accepted name. *)
Theorem table_tools_guard table limit (db : @sqlite row value) :
  (_valid_table_name table = false ->
     describe_table table db = (Text "Error: Invalid table name.", [])
     /\ sample_table table limit db = (Text "Error: Invalid table name.", []))
  /\ (forall sql parameters,
        DbExecute sql parameters ∈ (describe_table table db).2 ->
        _valid_table_name table = true
        /\ sql = "PRAGMA table_info(" +:+ table +:+ ")" /\ parameters = [])
  /\ (forall sql parameters,
        DbExecute sql parameters ∈ (sample_table table limit db).2 ->
        _valid_table_name table = true
        /\ sql = "SELECT * FROM " +:+ table +:+ " LIMIT ?").
Proof.
  unfold describe_table, sample_table.
  destruct (_valid_table_name table) eqn:Ev; cbn [negb].
  - split; [done |].
    destruct (get_conn_cases db) as [[_ ->] | [_ ->]].
    + split; intros sql ps H; by apply elem_of_nil in H.
    + split; intros sql ps.
      * destruct (db_execute db _ []) as [e|[|r rows]]; cbn [snd app];
          intros H; event_cases H; by injection H as -> ->.
      * destruct (db_execute db _ [_]) as [e|rows]; cbn [snd app];
          intros H; event_cases H; by injection H as -> _.
  - split; [done |]. split; intros sql ps H; by apply elem_of_nil in H.
Qed.

End SqliteToolProperties.

Section SqliteToolCalls.
Context {row value : Type}.

(** X16. Whatever limit is asked for, the limit that sample_table binds to
    its statement lies between 1 and 50: it is the requested limit when
    that is in 1..50, 1 when it is smaller (zero and negative limits
    included) and 50 when it is larger. *)
Theorem sample_table_limit table limit (db : @sqlite row value) sql parameters :
  DbExecute sql parameters ∈ (sample_table table limit db).2 ->
  exists bound,
    parameters = [bound] /\ 1 <= bound <= 50
    /\ (1 <= limit <= 50 -> bound = limit)
    /\ (limit < 1 -> bound = 1)
    /\ (50 < limit -> bound = 50).
Proof.
  unfold sample_table.
  destruct (_valid_table_name table); cbn [negb];
    [| by intros H%elem_of_nil].
  destruct (get_conn_cases db) as [[_ ->] | [_ ->]];
    [by intros H%elem_of_nil |].
  destruct (db_execute db _ [_]) as [e|rows]; cbn [snd app];
    intros H; event_cases H; injection H as _ ->;
    (eexists; split; [reflexivity | lia]).
Qed.

(** X17. Each of list_tables, describe_table, sample_table and
    query_database opens at most one connection, read-only
    (file:<DB_PATH>?mode=ro), and executes at most one statement on it;
    the connection is closed when the statement succeeds and is left open
    when the statement raises.  When the database file does not exist no
    connection is opened. *)
Theorem tools_use_one_statement table limit sql (db : @sqlite row value) :
  one_statement db (list_tables db).2
  /\ one_statement db (describe_table table db).2
  /\ one_statement db (sample_table table limit db).2
  /\ one_statement db (query_database sql db).2
  /\ (db_exists db = false ->
      (list_tables db).2 = [] /\ (describe_table table db).2 = []
      /\ (sample_table table limit db).2 = []
      /\ (query_database sql db).2 = []).
Proof.
  unfold list_tables, describe_table, sample_table, query_database.
  destruct (_valid_table_name table), (_is_read_only sql); cbn [negb];
    destruct (get_conn_cases db) as [[Hex ->] | [Hex ->]];
    rewrite ?Hex; cbn [snd];
    repeat match goal with
    | |- context [db_execute db ?s ?ps] =>
        let E := fresh "E" in destruct (db_execute db s ps) as [?|?] eqn:E
    | |- context [names_of db ?rs] => destruct (names_of db rs)
    | |- context [match ?l with [] => _ | _ :: _ => _ end] => destruct l
    end; cbn [snd app];
    repeat split; try done; try discriminate;
    try (by left);
    try (right; eexists _, _; left; split; [reflexivity | by eexists]);
    try (right; eexists _, _; right; split; [reflexivity | by eexists]).
Qed.

End SqliteToolCalls.

Lemma sample_table_limit_witness :
  exists bound, [1] = [bound] /\ 1 <= bound <= 50.
Proof.
  destruct (sample_table_limit (row := unit) (value := unit) "users" (-3)
              (Sqlite "crm.db" true (fun _ _ => inr []) (fun _ _ => inr tt))
              "SELECT * FROM users LIMIT ?" [1]) as (bound & Hp & Hb & _).
  - vm_compute. apply list_elem_of_further, list_elem_of_here.
  - exists bound. split; [exact Hp | exact Hb].
Defined.

(** ** The write filter *)

Lemma lower_char_space c : Py.isspace c = true -> Py.lower_char c = c.
Proof.
  destruct c as [[] [] [] [] [] [] [] []]; vm_compute; (done || discriminate).
Qed.

Lemma isspace_lower_char c : Py.isspace (Py.lower_char c) = Py.isspace c.
Proof. by destruct c as [[] [] [] [] [] [] [] []]. Qed.

Lemma lower_no_space w keyword :
  Py.lower w = Py.lower keyword -> no_space keyword -> no_space w.
Proof.
  revert keyword. induction w as [|c w IH]; intros [|a keyword]; try done.
  simpl. intros [= Hc Hw] [Ha Hk]. split; [| by eapply IH].
  destruct (Py.isspace c) eqn:Ec; [| done].
  rewrite (lower_char_space c Ec) in Hc. subst c.
  by rewrite isspace_lower_char, Ha in Ec.
Qed.

Lemma lstrip_spaces lead s :
  every Py.isspace lead -> Py.lstrip (lead +:+ s) = Py.lstrip s.
Proof.
  induction lead as [|c lead IH]; [done |]. intros [Hc Hl].
  change (Py.lstrip (String c (lead +:+ s)) = Py.lstrip s).
  simpl. rewrite Hc. by apply IH.
Qed.

Lemma lstrip_word s : starts_with_space s = false -> Py.lstrip s = s.
Proof. destruct s as [|c s]; [done |]. simpl. by intros ->. Qed.

Lemma rstrip_head s :
  match Py.rstrip s with
  | EmptyString => True
  | String c _ => exists s', s = String c s'
  end.
Proof.
  destruct s as [|c s]; [done |]. rewrite rstrip_cons.
  destruct (Py.rstrip s); [| by eexists].
  destruct (Py.isspace c); [done | by eexists].
Qed.

Lemma rstrip_word_app w rest :
  no_space w -> Py.rstrip (w +:+ rest) = w +:+ Py.rstrip rest.
Proof.
  induction w as [|c w IH]; [done |]. intros [Hc Hw].
  change (Py.rstrip (String c (w +:+ rest)) = String c (w +:+ Py.rstrip rest)).
  rewrite rstrip_cons, (IH Hw), Hc.
  destruct w as [|c' w]; [| done].
  change (EmptyString +:+ Py.rstrip rest) with (Py.rstrip rest).
  by destruct (Py.rstrip rest).
Qed.

Lemma strip_no_leading_space s : starts_with_space (Py.strip s) = false.
Proof.
  unfold Py.strip. pose proof (rstrip_head (Py.lstrip s)) as Hh.
  pose proof (lstrip_starts s) as Hl.
  destruct (Py.rstrip (Py.lstrip s)) as [|c r]; [done |].
  destruct Hh as [s' Hs']. rewrite Hs' in Hl. exact Hl.
Qed.

Lemma literal_ignorecase_app keyword w rest :
  Py.lower w = Py.lower keyword ->
  Py.literal_ignorecase keyword (w +:+ rest) = Some rest.
Proof.
  revert w. induction keyword as [|a keyword IH]; intros [|c w]; try done.
  simpl. intros [= Hc Hw].
  change (String c w +:+ rest) with (String c (w +:+ rest)).
  rewrite Hc, Ascii.eqb_refl. by apply IH.
Qed.

Lemma literal_ignorecase_head keyword s rest :
  Py.literal_ignorecase keyword s = Some rest ->
  match keyword, s with
  | String a _, String c _ => Py.lower_char c = Py.lower_char a
  | String _ _, EmptyString => False
  | EmptyString, _ => True
  end.
Proof.
  destruct keyword as [|a keyword], s as [|c s]; try done. simpl.
  destruct (Ascii.eqb_spec (Py.lower_char a) (Py.lower_char c)); [done |].
  discriminate.
Qed.

(** The lower-case first letters of the blocked keywords. *)
Lemma blocked_first_letters keyword :
  keyword ∈ BLOCKED_KEYWORDS ->
  no_space keyword
  /\ exists a rest, keyword = String a rest
       /\ Py.lower_char a ∈ ["d"; "a"; "t"; "i"; "u"; "c"; "r"]%char.
Proof.
  unfold BLOCKED_KEYWORDS. intros H.
  repeat (apply elem_of_cons in H as [-> | H];
          [split; [by repeat split |];
           eexists _, _; split; [reflexivity |]; vm_compute;
           repeat (first [apply list_elem_of_here | apply list_elem_of_further])
          |]).
  by apply elem_of_nil in H.
Qed.

Section WriteFilter.
Context {row value : Type}.

(** X18. A statement that begins, after any leading whitespace, with one
    of DROP, DELETE, TRUNCATE, ALTER, INSERT, UPDATE, CREATE, REPLACE,
    ATTACH, DETACH in any mix of upper and lower case, followed by the end
    of the statement or by a character that is not a word character, is
    refused by query_database with its fixed message, and the database is
    not opened. *)
Theorem query_database_blocks_writes keyword lead w rest
    (db : @sqlite row value) :
  keyword ∈ BLOCKED_KEYWORDS ->
  every Py.isspace lead ->
  Py.lower w = Py.lower keyword ->
  Py.word_boundary rest = true ->
  _is_read_only (lead +:+ w +:+ rest) = false
  /\ query_database (lead +:+ w +:+ rest) db
     = (Text "Error: Only SELECT statements are permitted. Write operations are blocked.",
        []).
Proof.
  intros Hk Hlead Hw Hb.
  destruct (blocked_first_letters keyword Hk) as (Hns & a & k' & -> & _).
  pose proof (lower_no_space w _ Hw Hns) as Hnw.
  assert (Hro : _is_read_only (lead +:+ w +:+ rest) = false).
  { unfold _is_read_only, Py.strip.
    rewrite lstrip_spaces by done.
    assert (Hw0 : starts_with_space (w +:+ rest) = false).
    { destruct w as [|c w]; [done |]. destruct Hnw as [Hc _]. exact Hc. }
    rewrite (lstrip_word _ Hw0), rstrip_word_app by done.
    apply negb_false_iff. unfold BLOCKED_SQL_match.
    apply existsb_exists. exists (String a k').
    split; [by apply list_elem_of_In |].
    assert (Hw1 : starts_with_space (w +:+ Py.rstrip rest) = false).
    { destruct w as [|c w]; [done |]. destruct Hnw as [Hc _]. exact Hc. }
    rewrite (lstrip_word _ Hw1), (literal_ignorecase_app _ w) by done.
    pose proof (rstrip_head rest) as Hh.
    destruct (Py.rstrip rest) as [|c r]; [done |].
    destruct Hh as [s' ->]. exact Hb. }
  split; [exact Hro |]. unfold query_database. by rewrite Hro.
Qed.

(** X19. The filter looks at the first word only.  A statement (of
    characters with code points below 256) whose first character after
    stripping is not d, a, t, i, u, c or r in either case (PRAGMA, VACUUM,
    WITH, a comment, SELECT followed by a second statement) passes the
    filter, and when the database file exists it is sent to sqlite3
    exactly as given. *)
Theorem query_database_passes_other_statements sql (db : @sqlite row value) :
  match Py.strip sql with
  | EmptyString => True
  | String c _ =>
      Py.lower_char c ∉ ["d"; "a"; "t"; "i"; "u"; "c"; "r"]%char
  end ->
  _is_read_only sql = true
  /\ (db_exists db = true ->
      DbExecute sql [] ∈ (query_database sql db).2).
Proof.
  intros Hc.
  assert (Hro : _is_read_only sql = true).
  { unfold _is_read_only. apply negb_true_iff.
    destruct (BLOCKED_SQL_match (Py.strip sql)) eqn:Em; [| done]. exfalso.
    unfold BLOCKED_SQL_match in Em.
    apply existsb_exists in Em as (keyword & Hk%list_elem_of_In & Hm).
    rewrite (lstrip_word _ (strip_no_leading_space sql)) in Hm.
    destruct (Py.literal_ignorecase keyword (Py.strip sql)) as [rest|] eqn:El;
      [| done].
    apply literal_ignorecase_head in El.
    destruct (blocked_first_letters keyword Hk) as (_ & a & k' & -> & Ha).
    destruct (Py.strip sql) as [|c s]; [done |].
    rewrite El in Hc. by apply Hc. }
  split; [exact Hro |]. intros Hex.
  unfold query_database, _get_conn. rewrite Hro, Hex. cbn [negb].
  destruct (db_execute db sql []); cbn [snd app];
    apply list_elem_of_further, list_elem_of_here.
Qed.

End WriteFilter.

Lemma query_database_blocks_writes_witness :
  _is_read_only "  	DeLeTe from crm_leads" = false.
Proof.
  destruct (query_database_blocks_writes (row := unit) (value := unit)
              "DELETE" "  	" "DeLeTe" " from crm_leads"
              (Sqlite "crm.db" true (fun _ _ => inr []) (fun _ _ => inr tt)))
    as [H _].
  - vm_compute. apply list_elem_of_further, list_elem_of_here.
  - vm_compute. repeat split.
  - reflexivity.
  - reflexivity.
  - exact H.
Defined.

Lemma query_database_passes_other_statements_witness :
  _is_read_only "VACUUM" = true
  /\ _is_read_only "PRAGMA journal_mode=DELETE" = true
  /\ _is_read_only "/* */ DROP TABLE crm_leads" = true.
Proof.
  split; [| split];
    (eapply (query_database_passes_other_statements (row := unit)
               (value := unit) _
               (Sqlite "crm.db" true (fun _ _ => inr []) (fun _ _ => inr tt)));
     vm_compute; intros H; event_cases H).
Defined.

(** * Part VI: the dashboard tools of server.py *)

(** ** Imports found in dashboard code *)

Lemma match_import_name s pkg n :
  match_import s = Some (pkg, n) ->
  every Py.ident_char pkg
  /\ exists c rest, pkg = String c rest /\ Py.isdigit c = false.
Proof.
  unfold match_import.
  destruct (match Py.literal "import" s with
            | Some rest => Some (6%nat, rest)
            | None => match Py.literal "from" s with
                      | Some rest => Some (4%nat, rest)
                      | None => None
                      end
            end) as [[k rest]|]; [| done].
  destruct (Py.span Py.isspace rest).1 as [|w ws]; [done |].
  destruct (Py.span Py.isspace rest).2 as [|c r] eqn:E2; [done |].
  destruct (ident_start c) eqn:Ec; [| done].
  intros [= <- _].
  destruct (span_spec Py.ident_char (String c r)) as (_ & Hev & _).
  split; [exact Hev |].
  unfold ident_start in Ec. apply andb_true_iff in Ec as [Hi Hd].
  cbn [Py.span]. rewrite Hi. cbn [fst].
  eexists _, _. split; [reflexivity |]. by apply negb_true_iff.
Qed.

Lemma find_imports_names skip line_start s pkg :
  pkg ∈ find_imports skip line_start s ->
  every Py.ident_char pkg
  /\ exists c rest, pkg = String c rest /\ Py.isdigit c = false.
Proof.
  revert skip line_start. induction s as [|c s IH]; intros skip line_start.
  - by intros H%elem_of_nil.
  - cbn [find_imports]. destruct skip as [|k]; [| apply IH].
    destruct line_start; [| apply IH].
    destruct (match_import (String c s)) as [[p n]|] eqn:Em; [| apply IH].
    intros [-> | H]%elem_of_cons; [by eapply match_import_name | by eapply IH].
Qed.

(** X20. Every package that _extract_imports finds in dashboard code is
    a name outside STDLIB made of ASCII letters, digits and underscores
    that does not begin with a digit; in particular what is later handed
    to pip install holds no space, dash, dot, slash or option sign. *)
Theorem extract_imports_names code pkg :
  pkg ∈ _extract_imports code ->
  (pkg ∉ STDLIB)
  /\ every Py.ident_char pkg
  /\ exists c rest, pkg = String c rest /\ Py.isdigit c = false.
Proof.
  unfold _extract_imports. rewrite elem_of_list_to_set, list_elem_of_filter.
  intros [Hstd Hin]. split; [exact Hstd |]. by eapply find_imports_names.
Qed.

Lemma extract_imports_names_witness :
  ("streamlit"%string ∉ STDLIB) /\ every Py.ident_char "streamlit".
Proof.
  destruct (extract_imports_names
              ("import os" +:+ newline_char +:+ "import streamlit as st")
              "streamlit") as (H1 & H2 & _); [| by split].
  vm_compute. reflexivity.
Defined.

(** ** The dashboard process *)

Ltac unfold_step := cbn [step snd].
Ltac unfold_create_dashboard := unfold create_dashboard; cbn zeta.
Ltac unfold_status := unfold is_running, get_dashboard_status.

Section DashboardProperties.
Variables (PORT : Z) (pip : list string -> Z * string)
          (listing : gset string -> list string) (pid_of : nat -> Z).

Local Abbreviation step := (step PORT pip listing pid_of).
Local Abbreviation run_commands := (run_commands PORT pip listing pid_of).
Local Abbreviation create_dashboard := (create_dashboard PORT pip listing).

Lemma install_keeps_process packages s :
  streamlit_process (_install pip packages s).2 = streamlit_process s
  /\ running (_install pip packages s).2 = running s
  /\ started (_install pip packages s).2 = started s
  /\ dashboard_file (_install pip packages s).2 = dashboard_file s.
Proof. unfold _install. by destruct packages. Qed.

Lemma is_running_spec s :
  is_running s = true
  <-> exists pid, streamlit_process s = Some pid /\ pid ∈ running s.
Proof.
  unfold is_running. destruct (streamlit_process s) as [pid|].
  - rewrite bool_decide_eq_true. split; [by eauto | by intros (? & [= <-] & ?)].
  - split; [done | by intros (? & ? & _)].
Qed.

Lemma start_streamlit_tracked s :
  tracked s -> tracked (_start_streamlit PORT s).2.
Proof.
  intros Ht. unfold _start_streamlit.
  destruct (dashboard_file s); [| exact Ht].
  intros q Hq. cbn [snd running streamlit_process] in *.
  apply elem_of_union in Hq as [Hq%elem_of_singleton | Hq]; [by subst |].
  exfalso. destruct (streamlit_process s) as [pid|] eqn:Ep.
  - apply elem_of_difference in Hq as [Hq Hne].
    specialize (Ht q Hq). rewrite Ep in Ht. injection Ht as ->.
    by apply Hne, elem_of_singleton.
  - specialize (Ht q Hq). by rewrite Ep in Ht.
Qed.

Lemma step_tracked c s : tracked s -> tracked (step c s).2.
Proof.
  intros Ht. destruct c as [code | | | | pid]; unfold_step.
  - unfold_create_dashboard.
    destruct (install_keeps_process (listing (_extract_imports code)) s)
      as (Hp & Hr & _).
    set (s1 := (_install pip (listing (_extract_imports code)) s).2) in *.
    set (w := Server (streamlit_process s1) (running s1) (Some code)
                (started s1) (pip_calls s1)).
    assert (Hw : tracked w).
    { intros q Hq. cbn [running streamlit_process w] in *.
      rewrite Hp. apply Ht. by rewrite <- Hr. }
    destruct (is_running w); cbn [negb snd];
      [exact Hw | by apply start_streamlit_tracked].
  - unfold stop_dashboard. destruct (is_running s) eqn:Er; cbn [negb snd];
      [| exact Ht].
    intros q Hq. cbn [running streamlit_process] in *. exfalso.
    destruct (streamlit_process s) as [pid|] eqn:Ep.
    + apply elem_of_difference in Hq as [Hq Hne].
      specialize (Ht q Hq). rewrite Ep in Ht. injection Ht as ->.
      by apply Hne, elem_of_singleton.
    + specialize (Ht q Hq). by rewrite Ep in Ht.
  - exact Ht.
  - exact Ht.
  - intros q Hq. cbn [running streamlit_process] in *.
    apply elem_of_difference in Hq as [Hq _]. by apply Ht.
Qed.

Lemma run_commands_tracked cs s : tracked s -> tracked (run_commands cs s).
Proof.
  revert s. induction cs as [|c cs IH]; intros s Ht; [done |].
  apply IH. by apply step_tracked.
Qed.

(** X21. The server never has two dashboards running.  After any sequence
    of create_dashboard, stop_dashboard, get_dashboard_status and
    read_dashboard calls, with processes exiting by themselves at any
    point in between, at most one of the processes that it started is
    still running, and that one is the process kept in
    streamlit_process. *)
Theorem one_dashboard_process cs file :
  let s := run_commands cs (initial_server file) in
  (size (running s) <= 1)%nat
  /\ forall pid, pid ∈ running s -> streamlit_process s = Some pid.
Proof.
  cbn zeta.
  assert (Ht : tracked (run_commands cs (initial_server file))).
  { apply run_commands_tracked. intros pid Hpid.
    by apply not_elem_of_empty in Hpid. }
  split; [| exact Ht].
  destruct (streamlit_process (run_commands cs (initial_server file)))
    as [pid|] eqn:Ep.
  - transitivity (size ({[pid]} : gset nat)); [| by rewrite size_singleton].
    apply subseteq_size. intros q Hq. specialize (Ht q Hq).
    rewrite Ep in Ht. injection Ht as ->. by apply elem_of_singleton.
  - assert (running (run_commands cs (initial_server file)) = ∅) as ->.
    { apply leibniz_equiv, elem_of_equiv_empty. intros q Hq.
      specialize (Ht q Hq). by rewrite Ep in Ht. }
    rewrite size_empty. lia.
Qed.

End DashboardProperties.

Section DashboardTools.
Variables (PORT : Z) (pip : list string -> Z * string)
          (listing : gset string -> list string) (pid_of : nat -> Z).

Local Abbreviation create_dashboard := (create_dashboard PORT pip listing).
Local Abbreviation get_dashboard_status := (get_dashboard_status PORT pid_of).

Lemma universal_newlines_id s :
  lacks "013" s -> Py.universal_newlines s = s.
Proof.
  induction s as [|c s IH]; [done |]. intros [Hc Hs].
  cbn [Py.universal_newlines].
  destruct (Ascii.eqb_spec c "013"); [done |]. by rewrite IH.
Qed.

Lemma status_not_running s :
  is_running s = false -> get_dashboard_status s = "🔴 Not running."%string.
Proof.
  unfold_status.
  destruct (streamlit_process s); [| done]. by intros ->.
Qed.

(** X22. After stop_dashboard no dashboard is running: the kept process,
    if it was running, has been terminated and forgotten, the status tool
    answers Not running, a second stop_dashboard answers that nothing is
    running and changes nothing, and dashboard.py is left as it was. *)
Theorem stop_dashboard_stops s :
  let r := stop_dashboard s in
  is_running r.2 = false
  /\ get_dashboard_status r.2 = "🔴 Not running."%string
  /\ stop_dashboard r.2 = ("No dashboard is currently running."%string, r.2)
  /\ dashboard_file r.2 = dashboard_file s
  /\ (forall pid, streamlit_process s = Some pid -> pid ∉ running r.2).
Proof.
  cbn zeta.
  assert (Hr : is_running (stop_dashboard s).2 = false).
  { unfold stop_dashboard. by destruct (is_running s) eqn:E. }
  split; [exact Hr |]. split; [by apply status_not_running |].
  split; [unfold stop_dashboard at 1; by rewrite Hr |].
  unfold stop_dashboard.
  destruct (is_running s) eqn:E; cbn [negb snd dashboard_file running].
  - split; [done |]. intros pid ->. rewrite elem_of_difference.
    intros [_ Hne]. by apply Hne, elem_of_singleton.
  - split; [done |]. intros pid Hp Hin. unfold is_running in E.
    rewrite Hp in E. by apply bool_decide_eq_false in E.
Qed.

(** X23. After create_dashboard the dashboard file holds the given code
    and a dashboard is running.  read_dashboard returns the code as
    read_text reads it back, with every carriage return and line feed
    pair and every single carriage return as one line feed, hence exactly
    the given code when it has no carriage return.  A dashboard that was
    running is kept, without a new process; otherwise exactly one process
    is started, and it is the one that the server keeps. *)
Theorem create_dashboard_runs code s :
  let r := create_dashboard code s in
  dashboard_file r.2 = Some code
  /\ read_dashboard r.2 = Py.universal_newlines code
  /\ (lacks "013" code -> read_dashboard r.2 = code)
  /\ is_running r.2 = true
  /\ (is_running s = true ->
      streamlit_process r.2 = streamlit_process s
      /\ running r.2 = running s /\ started r.2 = started s)
  /\ (is_running s = false ->
      streamlit_process r.2 = Some (started s)
      /\ started s ∈ running r.2 /\ started r.2 = S (started s)).
Proof.
  cbn zeta.
  assert (Hfile : dashboard_file (create_dashboard code s).2 = Some code).
  { unfold_create_dashboard.
    match goal with
    | |- context [is_running ?w0] => destruct (is_running w0)
    end; cbn [negb snd]; [done |].
    unfold _start_streamlit. by cbn [dashboard_file snd]. }
  split; [exact Hfile |].
  assert (Hread : read_dashboard (create_dashboard code s).2
                  = Py.universal_newlines code)
    by (unfold read_dashboard; by rewrite Hfile).
  split; [exact Hread |].
  split; [intros Hcr; rewrite Hread; by apply universal_newlines_id |].
  unfold_create_dashboard.
  destruct (install_keeps_process pip (listing (_extract_imports code)) s)
    as (Hp & Hr & Hs & _).
  set (s1 := (_install pip (listing (_extract_imports code)) s).2) in *.
  set (w := Server (streamlit_process s1) (running s1) (Some code)
              (started s1) (pip_calls s1)).
  assert (Hw : is_running w = is_running s).
  { unfold is_running. cbn [streamlit_process running w]. by rewrite Hp, Hr. }
  rewrite Hw. destruct (is_running s) eqn:E; cbn [negb snd].
  - split; [by rewrite Hw |]. split; [| done].
    intros _. cbn [streamlit_process running started w]. done.
  - unfold _start_streamlit. subst w. cbn [dashboard_file snd].
    cbn [streamlit_process running started].
    split.
    + unfold is_running. cbn [streamlit_process running].
      apply bool_decide_eq_true, elem_of_union_l, elem_of_singleton. done.
    + split; [done |]. intros _. rewrite Hs.
      split; [done |]. split; [| done].
      apply elem_of_union_l, elem_of_singleton. done.
Qed.

Hypothesis listing_permutation : forall X, listing X ≡ₚ elements X.

(** X24. create_dashboard runs pip only for what _extract_imports found:
    when the code imports nothing outside STDLIB at the start of a line,
    pip is not run and the answer says that there is nothing to install;
    otherwise pip is run once, with every found package exactly once. *)
Theorem create_dashboard_installs code s :
  let r := create_dashboard code s in
  (_extract_imports code = ∅ ->
     pip_calls r.2 = pip_calls s
     /\ exists first last,
          r.1 = Py.join newline_char
                  [first; "📦 No packages to install."%string; last])
  /\ (_extract_imports code <> ∅ ->
      exists packages,
        pip_calls r.2 = pip_calls s ++ [packages]
        /\ packages ≡ₚ elements (_extract_imports code)).
Proof.
  cbn zeta. unfold_create_dashboard.
  set (packages := listing (_extract_imports code)).
  assert (Hcalls : forall w0 : server,
    pip_calls (if negb (is_running w0) then _start_streamlit PORT w0
               else ("Dashboard updated — auto-reloaded at http://localhost:"
                       +:+ Py.str PORT, w0)).2 = pip_calls w0).
  { intros w0. destruct (is_running w0); cbn [negb snd]; [done |].
    unfold _start_streamlit. by destruct (dashboard_file w0). }
  split.
  - intros Hempty.
    assert (Hp : packages = []).
    { apply Permutation_nil_r. unfold packages.
      rewrite (listing_permutation _), Hempty. by rewrite elements_empty. }
    cbn [fst snd]. rewrite Hcalls, Hp. cbn [_install fst snd pip_calls].
    split; [done |]. by eexists _, _.
  - intros Hne. exists packages.
    split; [| apply listing_permutation].
    cbn [fst snd]. rewrite Hcalls. cbn [pip_calls]. unfold _install.
    destruct packages as [|pkg rest] eqn:Ep; [| done].
    exfalso. apply Hne. apply leibniz_equiv, elements_empty_inv.
    pose proof (listing_permutation (_extract_imports code)) as Hperm.
    fold packages in Hperm. rewrite Ep in Hperm.
    by apply Permutation_nil_l in Hperm as ->.
Qed.

End DashboardTools.

Lemma create_dashboard_runs_witness :
  read_dashboard
    (create_dashboard 8501 (fun _ => (0, EmptyString)) elements
       ("x = 1" +:+ String "013" newline_char +:+ "y = 2")
       (initial_server None)).2
  = ("x = 1" +:+ newline_char +:+ "y = 2")%string.
Proof.
  rewrite (proj1 (proj2 (create_dashboard_runs 8501
                           (fun _ => (0, EmptyString)) elements
                           ("x = 1" +:+ String "013" newline_char +:+ "y = 2")
                           (initial_server None)))).
  reflexivity.
Defined.

Lemma create_dashboard_installs_witness :
  pip_calls
    (create_dashboard 8501 (fun _ => (0, EmptyString)) elements
       ("import os" +:+ newline_char +:+ "import json")
       (initial_server None)).2 = [].
Proof.
  destruct (create_dashboard_installs 8501 (fun _ => (0, EmptyString)) elements
              (fun X => reflexivity (elements X))
              ("import os" +:+ newline_char +:+ "import json")
              (initial_server None)) as [H _].
  destruct H as [Hc _]; [vm_compute; reflexivity | exact Hc].
Defined.

(** * Part VII: the dependency bootstrap and the seeder's helper *)

Ltac lacks_literal := cbn [lacks]; repeat split; discriminate.

Lemma lacks_app x s t : lacks x s -> lacks x t -> lacks x (s +:+ t).
Proof.
  induction s as [|c s IH]; [done |]. intros [Hc Hs] Ht.
  change (lacks x (String c (s +:+ t))). split; [done | by apply IH].
Qed.

Lemma replace_char_lacks old new s :
  lacks old new -> lacks old (Py.replace_char old new s).
Proof.
  intros Hn. induction s as [|c s IH]; [done |]. simpl.
  destruct (Ascii.eqb_spec c old) as [->|Hne]; [by apply lacks_app |].
  by split.
Qed.

Lemma replace_char_keeps_lacking x old new s :
  lacks x new -> lacks x s -> lacks x (Py.replace_char old new s).
Proof.
  intros Hn. induction s as [|c s IH]; [done |]. intros [Hc Hs]. simpl.
  destruct (Ascii.eqb c old); [apply lacks_app; by auto |].
  split; [done | by apply IH].
Qed.

Lemma before_first_lacks sep s : lacks sep (Py.before_first sep s).
Proof.
  induction s as [|c s IH]; [done |]. simpl.
  destruct (Ascii.eqb_spec c sep); [done | by split].
Qed.

Lemma before_first_app sep name rest :
  lacks sep name ->
  Py.before_first sep (name +:+ String sep rest) = name.
Proof.
  induction name as [|c name IH]; intros Hl.
  - simpl. by rewrite Ascii.eqb_refl.
  - destruct Hl as [Hc Hl].
    change (Py.before_first sep (String c (name +:+ String sep rest))
            = String c name).
    simpl. destruct (Ascii.eqb_spec c sep); [done |]. by rewrite IH.
Qed.

Lemma before_first_id sep s :
  lacks sep s -> Py.before_first sep s = s.
Proof.
  induction s as [|c s IH]; [done |]. intros [Hc Hs]. simpl.
  destruct (Ascii.eqb_spec c sep); [done |]. by rewrite IH.
Qed.

Lemma replace_char_id old new s :
  lacks old s -> Py.replace_char old new s = s.
Proof.
  induction s as [|c s IH]; [done |]. intros [Hc Hs]. simpl.
  destruct (Ascii.eqb_spec c old); [done |]. by rewrite IH.
Qed.

(** X25. The module that _ensure imports for a package is the package
    name without its extras and with underscores for dashes: it has no
    bracket and no dash, a name followed by [extras] gives the module of
    the name alone, and a name without bracket and dash is its own
    module. *)
Theorem module_name_spec name extras :
  lacks "[" (module_name name) /\ lacks "-" (module_name name)
  /\ (lacks "[" name ->
      module_name (name +:+ String "[" extras) = module_name name)
  /\ (lacks "[" name -> lacks "-" name -> module_name name = name).
Proof.
  unfold module_name. split; [| split; [| split]].
  - apply replace_char_keeps_lacking;
      [lacks_literal | apply before_first_lacks].
  - apply replace_char_lacks. lacks_literal.
  - intros Hl. by rewrite before_first_app, before_first_id.
  - intros Hb Hd. rewrite before_first_id by done.
    by apply replace_char_id.
Qed.

Example module_name_example :
  module_name "sentence-transformers[gpu]" = "sentence_transformers"%string.
Proof. reflexivity. Qed.

Ltac unfold_ensure := cbn [_ensure].

Section EnsureProperties.
Variable pip_install : string -> gset string -> option (gset string).

Local Abbreviation _ensure := (_ensure pip_install).

Hypothesis pip_keeps : forall pkg modules modules',
  pip_install pkg modules = Some modules' -> modules ⊆ modules'.
Hypothesis pip_adds : forall pkg modules modules',
  pip_install pkg modules = Some modules' -> module_name pkg ∈ modules'.

Lemma filter_missing_mono (modules modules' : gset string) pkgs :
  modules ⊆ modules' ->
  filter (fun pkg => module_name pkg ∉ modules') pkgs
  `sublist_of` filter (fun pkg => module_name pkg ∉ modules) pkgs.
Proof.
  intros Hsub. induction pkgs as [|pkg rest IH]; [done |].
  rewrite !filter_cons.
  destruct (decide (module_name pkg ∉ modules')) as [Hn|Hn].
  - rewrite decide_True by (intros Hin; apply Hn, Hsub, Hin).
    by apply sublist_skip.
  - destruct (decide (module_name pkg ∉ modules)); [| done].
    by apply sublist_cons.
Qed.

Lemma ensure_calls_missing pkgs modules :
  (_ensure pkgs modules).1
  `sublist_of` filter (fun pkg => module_name pkg ∉ modules) pkgs.
Proof.
  revert modules. induction pkgs as [|pkg rest IH]; intros modules; [done |].
  unfold_ensure. rewrite filter_cons. case_bool_decide as Hin.
  - rewrite decide_False by (intros Hn; by apply Hn). apply IH.
  - rewrite decide_True by done.
    destruct (pip_install pkg modules) as [modules'|] eqn:Ep; cbn [fst].
    + apply sublist_skip. etrans; [apply IH |].
      apply filter_missing_mono. by eapply pip_keeps.
    + apply sublist_skip, sublist_nil_l.
Qed.

(** X26. If a successful pip install keeps what could be imported and
    makes the package's module importable, then _ensure hands to pip only
    packages of its list whose module could not be imported at the start,
    in the order of the list and each listed occurrence at most once; when
    every module can be imported at the start, pip is not run; and after
    an _ensure without a failed pip call every listed package's module can
    be imported and nothing that could be imported has been lost. *)
Theorem ensure_makes_importable pkgs modules :
  (_ensure pkgs modules).1
  `sublist_of` filter (fun pkg => module_name pkg ∉ modules) pkgs
  /\ (Forall (fun pkg => module_name pkg ∈ modules) pkgs ->
      _ensure pkgs modules = ([], Some modules))
  /\ (forall modules', (_ensure pkgs modules).2 = Some modules' ->
        modules ⊆ modules'
        /\ Forall (fun pkg => module_name pkg ∈ modules') pkgs).
Proof.
  split; [apply ensure_calls_missing |]. split.
  - induction 1 as [|pkg rest Hp _ IH]; [done |].
    unfold_ensure. by rewrite bool_decide_eq_true_2.
  - revert modules. induction pkgs as [|pkg rest IH]; intros modules modules'.
    + intros [= <-]. done.
    + unfold_ensure. case_bool_decide as Hin.
      * intros E. destruct (IH _ _ E) as [Hsub Hall].
        split; [done |]. constructor; [by apply Hsub | done].
      * destruct (pip_install pkg modules) as [m1|] eqn:Ep; [| done].
        cbn [snd]. intros E. destruct (IH _ _ E) as [Hsub Hall].
        pose proof (pip_keeps _ _ _ Ep) as Hk.
        pose proof (pip_adds _ _ _ Ep) as Ha.
        split; [by etrans |]. constructor; [by apply Hsub | done].
Qed.

End EnsureProperties.

Lemma ensure_makes_importable_witness :
  Forall (fun pkg => module_name pkg
                     ∈ ({["sentence_transformers"; "pypdf"; "chromadb"]}
                        : gset string))
    ["pypdf"; "chromadb"; "sentence-transformers"]%string.
Proof.
  refine (proj2 (proj2 (proj2
    (ensure_makes_importable
       (fun pkg modules => Some ({[module_name pkg]} ∪ modules)) _ _
       ["pypdf"; "chromadb"; "sentence-transformers"]%string
       {["chromadb"%string]})) _ _)).
  - intros pkg modules modules' [= <-]. apply union_subseteq_r.
  - intros pkg modules modules' [= <-].
    apply elem_of_union_l, elem_of_singleton_2. reflexivity.
  - vm_compute. reflexivity.
Defined.

(** ** rand_email *)

Lemma lower_char_not_capital a c :
  (65 <= N_of_ascii a <= 90)%N -> Py.lower_char c <> a.
Proof.
  intros Ha Hc. subst a.
  destruct c as [[] [] [] [] [] [] [] []]; compute in Ha;
    destruct Ha as [H1 H2]; first [exact (H1 eq_refl) | exact (H2 eq_refl)].
Qed.

Lemma lower_lacks_capital a s :
  (65 <= N_of_ascii a <= 90)%N -> lacks a (Py.lower s).
Proof.
  intros Ha. induction s as [|c s IH]; [done |]. simpl.
  split; [by apply lower_char_not_capital | done].
Qed.

(** X27. rand_email gives local@domain where the local part, made from
    the name, has no space, no apostrophe and no ASCII capital letter:
    spaces become dots and apostrophes are dropped. *)
Theorem rand_email_local_part name domain :
  exists local,
    rand_email name domain = local +:+ "@" +:+ domain
    /\ lacks " " local /\ lacks "'" local
    /\ forall a, (65 <= N_of_ascii a <= 90)%N -> lacks a local.
Proof.
  unfold rand_email. eexists. split; [reflexivity |].
  split; [| split].
  - apply replace_char_keeps_lacking; [exact I |].
    apply replace_char_lacks. lacks_literal.
  - apply replace_char_lacks. exact I.
  - intros a Ha.
    apply replace_char_keeps_lacking; [exact I |].
    apply replace_char_keeps_lacking;
      [split; [| exact I]; intros <-; compute in Ha;
       destruct Ha as [H1 _]; exact (H1 eq_refl) |].
    by apply lower_lacks_capital.
Qed.

Example rand_email_example :
  rand_email "Mary O'Neil" "acme.com" = "mary.oneil@acme.com"%string.
Proof. reflexivity. Qed.
